(** * signature.c: canonical ECDSA signatures, their digest and wire codec

    A shallow embedding of [signature.c] and the properties of its
    functions [sign_hash], [sha256_tx_one_input], [check_signed_hash],
    [check_2of2_sig], [signature_to_proto] and [proto_to_signature].

    Conventions of the embedding:
    - a [u8] is a [Byte.byte]; a C array of bytes is a [list u8];
    - a [uint64_t], a [size_t] length and an OpenSSL [BIGNUM] are [Z];
    - [assert] aborts the process: functions containing one return an
      [outcome], whose [Aborted] case is the failed assertion;
    - a pointer to a byte buffer is an [option (list u8)], [None] being
      [NULL];
    - the transaction a function mutates in place is passed in and
      returned (explicit state passing). *)

From Stdlib Require Import ZArith List Bool Lia.
From Stdlib.Strings Require Import Byte.
From stdpp Require Import base list.
Import ListNotations.

Local Open Scope Z_scope.

(** ** Bytes and their integer values *)

Definition u8 : Type := byte.

Definition u8_val (b : u8) : Z := Z.of_N (Byte.to_N b).

(** Conversion of an integer to [unsigned char]: reduction modulo 256. *)
Definition u8_of_Z (z : Z) : u8 :=
  match Byte.of_N (Z.to_N (z mod 256)) with
  | Some b => b
  | None => x00
  end.

(** Little-endian value of a byte string: first byte least significant. *)
Fixpoint le_value (bs : list u8) : Z :=
  match bs with
  | [] => 0
  | b :: bs' => u8_val b + 256 * le_value bs'
  end.

(** Big-endian value: first byte most significant. *)
Definition be_value (bs : list u8) : Z := le_value (rev bs).

(** The [n] low-order bytes of [z], least significant first. *)
Fixpoint le_bytes (n : nat) (z : Z) : list u8 :=
  match n with
  | O => []
  | S n' => u8_of_Z z :: le_bytes n' (Z.shiftr z 8)
  end.

Definition be_bytes (n : nat) (z : Z) : list u8 := rev (le_bytes n z).

(** ** Object representation of a [uint64_t]

    [memcpy] moves the eight bytes of the object representation; which
    integer they denote is fixed by the byte order of the host. *)

Inductive byte_order : Type := LittleEndian | BigEndian.

Definition load_u64 (e : byte_order) (bs : list u8) : Z :=
  match e with
  | LittleEndian => le_value bs
  | BigEndian => be_value bs
  end.

Definition store_u64 (e : byte_order) (z : Z) : list u8 :=
  match e with
  | LittleEndian => le_bytes 8 z
  | BigEndian => be_bytes 8 z
  end.

(** [memcpy(dst, src + off, n)], as the bytes that reach [dst]. *)
Definition memcpy_from (src : list u8) (off n : nat) : list u8 :=
  take n (drop off src).

(** [memcpy(dst + off, src, length src)], as the new content of [dst]. *)
Definition memcpy_into (dst : list u8) (off : nat) (src : list u8) : list u8 :=
  take off dst ++ src ++ drop (off + length src) dst.

(** ** Assertions *)

Inductive outcome (A : Type) : Type :=
| Returned (a : A)
| Aborted.
Arguments Returned {A} a.
Arguments Aborted {A}.

Definition obind {A B : Type} (m : outcome A) (k : A -> outcome B) : outcome B :=
  match m with
  | Returned a => k a
  | Aborted => Aborted
  end.

Definition assert (b : bool) : outcome unit :=
  if b then Returned tt else Aborted.

Notation "'DO' x <~ m 'IN' k" := (obind m (fun x => k))
  (at level 10, x name, m at level 100, k at level 200).
Notation "'ASSERT' b 'IN' k" := (obind (assert b) (fun _ => k))
  (at level 10, b at level 100, k at level 200).

(** ** OpenSSL big numbers

    A [BIGNUM] is a sign and a magnitude, here an integer of [Z]. The
    functions below follow the OpenSSL manual: [BN_num_bytes] is the
    number of bytes of the magnitude and [BN_bn2bin] writes exactly that
    many bytes, the magnitude in big-endian order. *)

Definition BN_is_odd (a : Z) : bool := Z.odd a.

Definition BN_sub (a b : Z) : Z := a - b.

Definition BN_num_bits (a : Z) : Z :=
  if a =? 0 then 0 else Z.log2 (Z.abs a) + 1.

Definition BN_num_bytes (a : Z) : Z := (BN_num_bits a + 7) / 8.

Definition BN_bn2bin (a : Z) : list u8 :=
  be_bytes (Z.to_nat (BN_num_bytes a)) (Z.abs a).

(** [BN_bin2bn(s, len, ret)] converts the [len] bytes at [s]; it returns
    [NULL] only when memory is exhausted, which is not modelled. *)
Definition BN_bin2bn (bs : list u8) (len : nat) : option Z :=
  Some (be_value (take len bs)).

(** [ECDSA_SIG]: the pair of big numbers [r] and [s]. *)
Module ECDSA_SIG.
Record t : Type := { r : Z; s : Z }.
End ECDSA_SIG.

(** ** Data model *)

(** [struct signature]: [u8 r[32]; u8 s[32]]. *)
Record signature : Type := { r : list u8; s : list u8 }.

Definition wf_signature (sig : signature) : Prop :=
  length sig.(r) = 32%nat /\ length sig.(s) = 32%nat.

(** The protobuf message [Signature]: eight [uint64_t] fields. *)
Record Signature : Type :=
  { r1 : Z; r2 : Z; r3 : Z; r4 : Z; s1 : Z; s2 : Z; s3 : Z; s4 : Z }.

(** [(sig->s[31] & 1) == 0] *)
Definition s_is_even (sig : signature) : bool :=
  Z.land (u8_val (nth 31 sig.(s) x00)) 1 =? 0.

(** ** The wire codec *)

Definition signature_to_proto (e : byte_order) (sig : signature)
  : outcome Signature :=
  ASSERT (s_is_even sig) IN
  Returned
    {| r1 := load_u64 e (memcpy_from sig.(r) 0 8);
       r2 := load_u64 e (memcpy_from sig.(r) 8 8);
       r3 := load_u64 e (memcpy_from sig.(r) 16 8);
       r4 := load_u64 e (memcpy_from sig.(r) 24 8);
       s1 := load_u64 e (memcpy_from sig.(s) 0 8);
       s2 := load_u64 e (memcpy_from sig.(s) 8 8);
       s3 := load_u64 e (memcpy_from sig.(s) 16 8);
       s4 := load_u64 e (memcpy_from sig.(s) 24 8) |}.

(** [sig] is an output parameter: the function receives the buffer and
    returns its verdict together with the buffer as it leaves it. *)
Definition proto_to_signature (e : byte_order) (pb : Signature) (sig : signature)
  : bool * signature :=
  let sig_r := sig.(r) in
  let sig_s := sig.(s) in
  let sig_r := memcpy_into sig_r 0 (store_u64 e pb.(r1)) in
  let sig_r := memcpy_into sig_r 8 (store_u64 e pb.(r2)) in
  let sig_r := memcpy_into sig_r 16 (store_u64 e pb.(r3)) in
  let sig_r := memcpy_into sig_r 24 (store_u64 e pb.(r4)) in
  let sig_s := memcpy_into sig_s 0 (store_u64 e pb.(s1)) in
  let sig_s := memcpy_into sig_s 8 (store_u64 e pb.(s2)) in
  let sig_s := memcpy_into sig_s 16 (store_u64 e pb.(s3)) in
  let sig_s := memcpy_into sig_s 24 (store_u64 e pb.(s4)) in
  let sig := {| r := sig_r; s := sig_s |} in
  (s_is_even sig, sig).

(** The decoder's output, whatever the buffer held before. *)
Definition reassembled (e : byte_order) (pb : Signature) : signature :=
  {| r := store_u64 e pb.(r1) ++ store_u64 e pb.(r2) ++
          store_u64 e pb.(r3) ++ store_u64 e pb.(r4);
     s := store_u64 e pb.(s1) ++ store_u64 e pb.(s2) ++
          store_u64 e pb.(s3) ++ store_u64 e pb.(s4) |}.

(** Bytes [8 * i .. 8 * i + 7] of a 32-byte array. *)
Definition chunk (bs : list u8) (i : nat) : list u8 := memcpy_from bs (8 * i) 8.

(** Every field of the record is the integer [value] reads in its chunk
    of the signature, in the order [r1 .. r4], [s1 .. s4]. *)
Definition fields_read_as (value : list u8 -> Z) (sig : signature) (pb : Signature)
  : Prop :=
  pb.(r1) = value (chunk sig.(r) 0) /\ pb.(r2) = value (chunk sig.(r) 1) /\
  pb.(r3) = value (chunk sig.(r) 2) /\ pb.(r4) = value (chunk sig.(r) 3) /\
  pb.(s1) = value (chunk sig.(s) 0) /\ pb.(s2) = value (chunk sig.(s) 1) /\
  pb.(s3) = value (chunk sig.(s) 2) /\ pb.(s4) = value (chunk sig.(s) 3).

Definition is_u64 (z : Z) : Prop := 0 <= z < 2 ^ 64.

(** ** Collaborators

    The elliptic-curve engine of OpenSSL and the transaction, hash, script
    and key modules of the repository are used through their interfaces
    only; their declarations are not part of [signature.c]. *)

Class OpenSSL : Type := {
  EC_KEY : Type;
  EC_GROUP : Type;
  NID_secp256k1 : Z;
  (** [ECDSA_do_sign(dgst, dgst_len, eckey)]; [None] is [NULL]. *)
  ECDSA_do_sign : list u8 -> Z -> EC_KEY -> option ECDSA_SIG.t;
  (** [ECDSA_do_verify(dgst, dgst_len, sig, eckey)]: 1, 0 or -1. *)
  ECDSA_do_verify : list u8 -> Z -> ECDSA_SIG.t -> EC_KEY -> Z;
  EC_KEY_get0_group : EC_KEY -> EC_GROUP;
  EC_GROUP_get_order : EC_GROUP -> Z;
  EC_KEY_new_by_curve_name : Z -> EC_KEY;
  (** [o2i_ECPublicKey(&eckey, &in, len)]; [None] is [NULL]. *)
  o2i_ECPublicKey : EC_KEY -> list u8 -> Z -> option EC_KEY
}.

(** [struct pubkey]: the serialized point. *)
Module pubkey.
Record t : Type := { key : list u8 }.
End pubkey.

(** [struct bitcoin_tx_output], of which only the script is read here. *)
Module bitcoin_tx_output.
Record t : Type := { script_length : Z; script : option (list u8) }.
End bitcoin_tx_output.

(** [struct sha256_double]: 32 bytes. *)
Definition sha256_double : Type := list u8.

Section Program.

(** The fields of [struct bitcoin_tx_input] and of [struct bitcoin_tx]
    that [signature.c] never names are kept as opaque values. *)
Variables txin_fields tx_fields : Type.

Record bitcoin_tx_input : Type := {
  script_length : Z;
  script : option (list u8);
  txin_other : txin_fields
}.

(** [input_count] and the array [input] are one list: the count is its
    length. *)
Record bitcoin_tx : Type := {
  input : list bitcoin_tx_input;
  tx_other : tx_fields
}.

Definition input_count (tx : bitcoin_tx) : nat := length tx.(input).

(** [tx->input[n].script_length = len] *)
Definition set_script_length (len : Z) (i : bitcoin_tx_input) : bitcoin_tx_input :=
  {| script_length := len; script := i.(script); txin_other := i.(txin_other) |}.

(** [tx->input[n].script = p] *)
Definition set_script (p : option (list u8)) (i : bitcoin_tx_input) : bitcoin_tx_input :=
  {| script_length := i.(script_length); script := p; txin_other := i.(txin_other) |}.

(** Assignment to a field of [tx->input[n]]. *)
Definition store_input (n : nat) (f : bitcoin_tx_input -> bitcoin_tx_input)
    (tx : bitcoin_tx) : bitcoin_tx :=
  {| input := alter f n tx.(input); tx_other := tx.(tx_other) |}.

Class Bitcoin : Type := {
  sha256_ctx : Type;
  SHA256_INIT : sha256_ctx;
  sha256_init : sha256_ctx -> sha256_ctx;
  sha256_tx : sha256_ctx -> bitcoin_tx -> sha256_ctx;
  sha256_le32 : sha256_ctx -> Z -> sha256_ctx;
  sha256_double_done : sha256_ctx -> sha256_double;
  SIGHASH_ALL : Z;
  is_p2sh : option (list u8) -> Z -> bool;
  pubkey_len : pubkey.t -> Z
}.

Context {ssl : OpenSSL} {btc : Bitcoin}.

(** *** [sign_hash] *)

(** [talz(ctx, struct signature)]: a zero-filled signature. *)
Definition talz_signature : signature :=
  {| r := replicate 32 x00; s := replicate 32 x00 |}.

Definition sign_hash (private_key : EC_KEY) (h : sha256_double)
  : outcome (option signature) :=
  match ECDSA_do_sign h 32 private_key with
  | None => Returned None
  | Some sig =>
    DO sig_s <~
      (if BN_is_odd sig.(ECDSA_SIG.s) then
         let group := EC_KEY_get0_group private_key in
         let order := EC_GROUP_get_order group in
         let sig_s := BN_sub order sig.(ECDSA_SIG.s) in
         ASSERT (negb (BN_is_odd sig_s)) IN
         Returned sig_s
       else Returned sig.(ECDSA_SIG.s)) IN
    let s0 := talz_signature in
    let len := BN_num_bytes sig.(ECDSA_SIG.r) in
    ASSERT (len <=? 32) IN
    let s1 := {| r := memcpy_into s0.(r) (Z.to_nat (32 - len))
                        (BN_bn2bin sig.(ECDSA_SIG.r));
                 s := s0.(s) |} in
    let len := BN_num_bytes sig_s in
    ASSERT (len <=? 32) IN
    let s2 := {| r := s1.(r);
                 s := memcpy_into s1.(s) (Z.to_nat (32 - len))
                        (BN_bn2bin sig_s) |} in
    Returned (Some s2)
  end.

(** *** [sha256_tx_one_input] *)

(** The loop of assertions [tx->input[i].script_length == 0]. *)
Fixpoint assert_inputs_zeroed (inputs : list bitcoin_tx_input) : outcome unit :=
  match inputs with
  | [] => Returned tt
  | i :: rest =>
    ASSERT (i.(script_length) =? 0) IN assert_inputs_zeroed rest
  end.

(** The transaction is modified in place: the function returns the
    transaction as it leaves it, also when an assertion fails. *)
Definition sha256_tx_one_input (tx : bitcoin_tx) (input_num : nat)
    (script : option (list u8)) (script_len : Z)
  : outcome sha256_double * bitcoin_tx :=
  let ctx := SHA256_INIT in
  if negb (input_num <? input_count tx)%nat then (Aborted, tx) else
  match assert_inputs_zeroed tx.(input) with
  | Aborted => (Aborted, tx)
  | Returned _ =>
    let tx := store_input input_num (set_script_length script_len) tx in
    let tx := store_input input_num (set_script script) tx in
    let ctx := sha256_init ctx in
    let ctx := sha256_tx ctx tx in
    let ctx := sha256_le32 ctx SIGHASH_ALL in
    let hash := sha256_double_done ctx in
    (* Reset it for next time. *)
    let tx := store_input input_num (set_script_length 0) tx in
    let tx := store_input input_num (set_script None) tx in
    (Returned hash, tx)
  end.

(** *** [sign_tx_input] *)

Definition sign_tx_input (tx : bitcoin_tx) (in_ : nat)
    (subscript : option (list u8)) (subscript_len : Z) (privkey : EC_KEY)
  : outcome (option signature) * bitcoin_tx :=
  match sha256_tx_one_input tx in_ subscript subscript_len with
  | (Aborted, tx) => (Aborted, tx)
  | (Returned hash, tx) => (sign_hash privkey hash, tx)
  end.

(** *** [check_signed_hash] *)

Definition check_signed_hash (hash : sha256_double) (signature : signature)
    (key : pubkey.t) : outcome bool :=
  let eckey := EC_KEY_new_by_curve_name NID_secp256k1 in
  (* S must be even *)
  ASSERT (s_is_even signature) IN
  match o2i_ECPublicKey eckey key.(pubkey.key) (pubkey_len key) with
  | None => Returned false
  | Some eckey =>
    match BN_bin2bn signature.(r) 32 with
    | None => Returned false
    | Some r =>
      match BN_bin2bn signature.(s) 32 with
      | None => Returned false
      | Some s =>
        let sig := {| ECDSA_SIG.r := r; ECDSA_SIG.s := s |} in
        let v := ECDSA_do_verify hash 32 sig eckey in
        if v =? 0 then Returned false        (* Invalid signature *)
        else if v =? -1 then Returned false  (* Malformed or other error *)
        else Returned true
      end
    end
  end.

(** *** [check_2of2_sig] *)

Definition check_2of2_sig (tx : bitcoin_tx) (input_num : nat)
    (output : bitcoin_tx_output.t) (key1 key2 : pubkey.t)
    (sig1 sig2 : signature) : outcome bool * bitcoin_tx :=
  if negb (input_num <? input_count tx)%nat then (Aborted, tx) else
  if negb (is_p2sh output.(bitcoin_tx_output.script)
                   output.(bitcoin_tx_output.script_length))
  then (Aborted, tx) else
  match sha256_tx_one_input tx input_num
          output.(bitcoin_tx_output.script)
          output.(bitcoin_tx_output.script_length) with
  | (Aborted, tx) => (Aborted, tx)
  | (Returned hash, tx) =>
    (DO ok1 <~ check_signed_hash hash sig1 key1 IN
     if ok1 then check_signed_hash hash sig2 key2 else Returned false,
     tx)
  end.

End Program.

Arguments script_length {txin_fields} _.
Arguments script {txin_fields} _.
Arguments txin_other {txin_fields} _.
Arguments input {txin_fields tx_fields} _.
Arguments tx_other {txin_fields tx_fields} _.
Arguments input_count {txin_fields tx_fields} tx.
Arguments set_script_length {txin_fields} len i.
Arguments set_script {txin_fields} p i.
Arguments store_input {txin_fields tx_fields} n f tx.
Arguments assert_inputs_zeroed {txin_fields} inputs.
Arguments sha256_tx_one_input {txin_fields tx_fields btc} tx input_num script script_len.
Arguments sign_tx_input {txin_fields tx_fields ssl btc} tx in_ subscript subscript_len privkey.
Arguments check_signed_hash {txin_fields tx_fields ssl btc} hash signature key.
Arguments check_2of2_sig {txin_fields tx_fields ssl btc} tx input_num output key1 key2 sig1 sig2.
Arguments sign_hash {ssl} private_key h.
Arguments sha256_ctx {txin_fields tx_fields Bitcoin}.
Arguments SHA256_INIT {txin_fields tx_fields Bitcoin}.
Arguments sha256_init {txin_fields tx_fields Bitcoin} _.
Arguments sha256_tx {txin_fields tx_fields Bitcoin} _ _.
Arguments sha256_le32 {txin_fields tx_fields Bitcoin} _ _.
Arguments sha256_double_done {txin_fields tx_fields Bitcoin} _.
Arguments SIGHASH_ALL {txin_fields tx_fields Bitcoin}.
Arguments is_p2sh {txin_fields tx_fields Bitcoin} _ _.
Arguments pubkey_len {txin_fields tx_fields Bitcoin} _.

(** ** Notions used in the statements *)

Section Notions.

Context {txin_fields tx_fields : Type}.
Context {ssl : OpenSSL} {btc : Bitcoin txin_fields tx_fields}.

(** The transaction while it is hashed: the script installed at input [n]. *)
Definition installed (tx : bitcoin_tx txin_fields tx_fields) (n : nat)
  (script : option (list u8)) (script_len : Z)
: bitcoin_tx txin_fields tx_fields :=
store_input n (set_script script)
  (store_input n (set_script_length script_len) tx).

(** The hash of a transaction followed by [SIGHASH_ALL]. *)
Definition digest_of (tx : bitcoin_tx txin_fields tx_fields) : sha256_double :=
sha256_double_done
  (sha256_le32 (sha256_tx (sha256_init SHA256_INIT) tx) SIGHASH_ALL).

(** The script of an input is empty. *)
Definition zeroed (i : bitcoin_tx_input txin_fields) : Prop :=
i.(script_length) = 0.

(** The script pointer of an input is [NULL]. *)
Definition null_script (i : bitcoin_tx_input txin_fields) : Prop :=
i.(script) = None.

(** The answer of the engine on the numbers [rv] and [sv]: the decoding
  of the public key, then [ECDSA_do_verify], whose results 0 and -1
  both count as a refusal. *)
Definition engine_verdict (hash : sha256_double) (rv sv : Z) (key : pubkey.t)
: bool :=
match o2i_ECPublicKey (EC_KEY_new_by_curve_name NID_secp256k1)
        key.(pubkey.key) (pubkey_len key) with
| None => false
| Some eckey =>
  let v := ECDSA_do_verify hash 32
             {| ECDSA_SIG.r := rv; ECDSA_SIG.s := sv |} eckey in
  negb (v =? 0) && negb (v =? -1)
end.

End Notions.

Arguments installed {txin_fields tx_fields} tx n script script_len.
Arguments digest_of {txin_fields tx_fields btc} tx.
Arguments zeroed {txin_fields} i.
Arguments null_script {txin_fields} i.
Arguments engine_verdict {txin_fields tx_fields ssl btc} hash rv sv key.

(** ** A small engine to run the definitions on

    The order of the group of secp256k1, and stand-ins for the
    collaborators that compute: they make the examples below executable
    and are no model of ECDSA or of SHA-256. *)

Definition secp256k1_order : Z :=
  0xFFFFFFFFFFFFFFFFFFFFFFFFFFFFFFFEBAAEDCE6AF48A03BBFD25E8CD0364141.

Definition demo_ssl : OpenSSL := {|
  EC_KEY := Z;
  EC_GROUP := unit;
  NID_secp256k1 := 714;
  ECDSA_do_sign := fun h _ k =>
    if k =? 0 then None
    else Some {| ECDSA_SIG.r := 1 + be_value h mod 1000; ECDSA_SIG.s := k |};
  ECDSA_do_verify := fun h _ sig k =>
    if sig.(ECDSA_SIG.s) =? 0 then -1
    else if sig.(ECDSA_SIG.r) =? k then 1 else 0;
  EC_KEY_get0_group := fun _ => tt;
  EC_GROUP_get_order := fun _ => secp256k1_order;
  EC_KEY_new_by_curve_name := fun _ => 0;
  o2i_ECPublicKey := fun _ bs len =>
    if len =? 0 then None else Some (be_value bs)
|}.

Definition demo_script_bytes (i : bitcoin_tx_input unit) : list u8 :=
  match i.(script) with
  | Some bs => take (Z.to_nat i.(script_length)) bs
  | None => []
  end.

Definition demo_btc : Bitcoin unit unit := {|
  sha256_ctx := list u8;
  SHA256_INIT := [];
  sha256_init := fun _ => [];
  sha256_tx := fun ctx tx => ctx ++ concat (map demo_script_bytes tx.(input));
  sha256_le32 := fun ctx z => ctx ++ le_bytes 4 z;
  sha256_double_done := fun ctx => be_bytes 32 (le_value ctx);
  SIGHASH_ALL := 1;
  is_p2sh := fun p len => len =? 23;
  pubkey_len := fun k => Z.of_nat (length k.(pubkey.key))
|}.

Definition demo_input : bitcoin_tx_input unit :=
  {| script_length := 0; script := None; txin_other := tt |}.

Definition demo_tx : bitcoin_tx unit unit :=
  {| input := [demo_input]; tx_other := tt |}.

(** An input whose script is empty but whose script pointer is not
    [NULL]: length 0, pointing at a buffer left over from earlier use. *)
Definition stale_input : bitcoin_tx_input unit :=
  {| script_length := 0; script := Some [x51]; txin_other := tt |}.

Definition stale_tx : bitcoin_tx unit unit :=
  {| input := [stale_input]; tx_other := tt |}.

(** A canonical signature to run the codec on: [r] is 1, 2, .., 32 and
    [s] ends in an even byte. *)
Definition sample_signature : signature :=
  {| r := [x01; x02; x03; x04; x05; x06; x07; x08;
           x09; x0a; x0b; x0c; x0d; x0e; x0f; x10;
           x11; x12; x13; x14; x15; x16; x17; x18;
           x19; x1a; x1b; x1c; x1d; x1e; x1f; x20];
     s := [xff; xfe; xfd; xfc; xfb; xfa; xf9; xf8;
           xf7; xf6; xf5; xf4; xf3; xf2; xf1; xf0;
           xef; xee; xed; xec; xeb; xea; xe9; xe8;
           xe7; xe6; xe5; xe4; xe3; xe2; xe1; xe0] |}.

(** The same with an odd last byte of [s]. *)
Definition odd_signature : signature :=
  {| r := sample_signature.(r);
     s := take 31 sample_signature.(s) ++ [xe1] |}.

(** A wire record whose last byte of [s], on a little-endian host, is 1. *)
Definition odd_wire : Signature :=
  {| r1 := 0; r2 := 0; r3 := 0; r4 := 0;
     s1 := 0; s2 := 0; s3 := 0; s4 := 2 ^ 56 |}.

Definition demo_output : bitcoin_tx_output.t :=
  {| bitcoin_tx_output.script_length := 23;
     bitcoin_tx_output.script := Some (replicate 23 x51) |}.

Definition demo_key : pubkey.t := {| pubkey.key := [x02; x07] |}.

(** ** Notions used for the codec across hosts *)

(** Every field of the record is a [uint64_t]. *)
Definition wf_Signature (pb : Signature) : Prop :=
  is_u64 pb.(r1) /\ is_u64 pb.(r2) /\ is_u64 pb.(r3) /\ is_u64 pb.(r4) /\
  is_u64 pb.(s1) /\ is_u64 pb.(s2) /\ is_u64 pb.(s3) /\ is_u64 pb.(s4).

Definition other_order (e : byte_order) : byte_order :=
  match e with
  | LittleEndian => BigEndian
  | BigEndian => LittleEndian
  end.

(** A 32-byte array with each of its four 8-byte chunks reversed. *)
Definition swap_chunks (bs : list u8) : list u8 :=
  rev (chunk bs 0) ++ rev (chunk bs 1) ++ rev (chunk bs 2) ++ rev (chunk bs 3).

(** A key of the small engine under which [sample_signature] is refused. *)
Definition demo_key_refusing : pubkey.t := {| pubkey.key := [x00] |}.

(** ** Byte-level facts *)

Lemma u8_val_bounds (b : u8) : 0 <= u8_val b < 256.
Proof.
  unfold u8_val. pose proof (Byte.to_N_bounded b). lia.
Qed.

Lemma u8_of_Z_val (b : u8) : u8_of_Z (u8_val b) = b.
Proof.
  unfold u8_of_Z. rewrite Z.mod_small by apply u8_val_bounds.
  unfold u8_val. rewrite N2Z.id, Byte.of_to_N. reflexivity.
Qed.

Lemma u8_val_of_Z (z : Z) : u8_val (u8_of_Z z) = z mod 256.
Proof.
  unfold u8_of_Z, u8_val.
  pose proof (Z.mod_pos_bound z 256 eq_refl) as Hm.
  destruct (Byte.of_N (Z.to_N (z mod 256))) as [b|] eqn:E.
  - apply Byte.to_of_N in E. rewrite E. lia.
  - apply Byte.of_N_None_iff in E. lia.
Qed.

Lemma u8_of_Z_add_mul (b : u8) (v : Z) : u8_of_Z (u8_val b + 256 * v) = b.
Proof.
  rewrite <- (u8_of_Z_val b) at 2. unfold u8_of_Z.
  rewrite (Z.mul_comm 256 v), Z_mod_plus_full. reflexivity.
Qed.

Lemma shiftr8_add_mul (b : u8) (v : Z) : Z.shiftr (u8_val b + 256 * v) 8 = v.
Proof.
  rewrite Z.shiftr_div_pow2 by lia. change (2 ^ 8) with 256.
  pose proof (u8_val_bounds b).
  rewrite (Z.mul_comm 256 v), Z.div_add by lia.
  rewrite Z.div_small by lia. lia.
Qed.

Lemma le_bytes_le_value (bs : list u8) : le_bytes (length bs) (le_value bs) = bs.
Proof.
  induction bs as [|b bs IH]; simpl; [reflexivity|].
  rewrite u8_of_Z_add_mul, shiftr8_add_mul, IH. reflexivity.
Qed.

Lemma be_bytes_be_value (bs : list u8) : be_bytes (length bs) (be_value bs) = bs.
Proof.
  unfold be_bytes, be_value.
  rewrite <- (length_rev bs), le_bytes_le_value. apply rev_involutive.
Qed.

Lemma store_load_u64 (e : byte_order) (bs : list u8) :
  length bs = 8%nat -> store_u64 e (load_u64 e bs) = bs.
Proof.
  intros H. destruct e; unfold store_u64, load_u64; rewrite <- H.
  - apply le_bytes_le_value.
  - apply be_bytes_be_value.
Qed.

Lemma length_le_bytes (n : nat) (z : Z) : length (le_bytes n z) = n.
Proof.
  revert z; induction n as [|n IH]; intros z; simpl; [reflexivity|].
  now rewrite IH.
Qed.

Lemma length_store_u64 (e : byte_order) (z : Z) : length (store_u64 e z) = 8%nat.
Proof.
  destruct e; unfold store_u64, be_bytes;
    rewrite ?length_rev; apply length_le_bytes.
Qed.

Lemma le_value_bounds (bs : list u8) : 0 <= le_value bs < 256 ^ Z.of_nat (length bs).
Proof.
  induction bs as [|b bs IH]; [simpl; lia|].
  cbn [le_value length]. rewrite Nat2Z.inj_succ, Z.pow_succ_r by lia.
  pose proof (u8_val_bounds b). lia.
Qed.

Lemma le_value_app (a b : list u8) :
  le_value (a ++ b) = le_value a + 256 ^ Z.of_nat (length a) * le_value b.
Proof.
  induction a as [|x a IH]; [simpl; lia|].
  cbn [app le_value length]. rewrite IH, Nat2Z.inj_succ, Z.pow_succ_r by lia. ring.
Qed.

Lemma be_value_app (a b : list u8) :
  be_value (a ++ b) = be_value a * 256 ^ Z.of_nat (length b) + be_value b.
Proof.
  unfold be_value. rewrite rev_app_distr, le_value_app, length_rev. ring.
Qed.

Lemma be_value_bounds (bs : list u8) : 0 <= be_value bs < 256 ^ Z.of_nat (length bs).
Proof.
  unfold be_value. rewrite <- (length_rev bs). apply le_value_bounds.
Qed.

(** The test [x & 1] reads bit 0. *)
Lemma land_1_testbit (x : Z) : (Z.land x 1 =? 0) = negb (Z.testbit x 0).
Proof.
  change 1 with (Z.ones 1) at 1. rewrite Z.land_ones by lia.
  change (2 ^ 1) with 2. rewrite <- Z.bit0_mod.
  now destruct (Z.testbit x 0).
Qed.

(** ** Splitting 32 bytes into four chunks of eight, and back *)

Ltac explode l H :=
  repeat (destruct l as [|? l]; simpl in H;
          [try discriminate H | try discriminate H; try (injection H as H)]).

Lemma length_memcpy_from (bs : list u8) (off n : nat) :
  (off + n <= length bs)%nat -> length (memcpy_from bs off n) = n.
Proof.
  intros H. unfold memcpy_from. rewrite length_take, length_drop. lia.
Qed.

Lemma chunks_concat (bs : list u8) :
  length bs = 32%nat ->
  memcpy_from bs 0 8 ++ memcpy_from bs 8 8 ++
  memcpy_from bs 16 8 ++ memcpy_from bs 24 8 = bs.
Proof.
  intros H. explode bs H. reflexivity.
Qed.

Lemma memcpy_into_chunks (dst a b c d : list u8) :
  length dst = 32%nat ->
  length a = 8%nat -> length b = 8%nat -> length c = 8%nat -> length d = 8%nat ->
  memcpy_into (memcpy_into (memcpy_into (memcpy_into dst 0 a) 8 b) 16 c) 24 d
  = a ++ b ++ c ++ d.
Proof.
  intros Hdst Ha Hb Hc Hd.
  explode dst Hdst. explode a Ha. explode b Hb. explode c Hc. explode d Hd.
  reflexivity.
Qed.


Lemma proto_to_signature_spec (e : byte_order) (pb : Signature) (sig0 : signature) :
  wf_signature sig0 ->
  proto_to_signature e pb sig0
  = (s_is_even (reassembled e pb), reassembled e pb).
Proof.
  intros [Hr Hs]. unfold proto_to_signature, reassembled.
  rewrite !memcpy_into_chunks by (assumption || apply length_store_u64).
  reflexivity.
Qed.

Lemma wf_reassembled (e : byte_order) (pb : Signature) : wf_signature (reassembled e pb).
Proof.
  split; cbn [reassembled r s]; rewrite !length_app, !length_store_u64; reflexivity.
Qed.

Lemma signature_to_proto_canonical (e : byte_order) (sig : signature) :
  s_is_even sig = true ->
  signature_to_proto e sig =
  Returned
    {| r1 := load_u64 e (memcpy_from sig.(r) 0 8);
       r2 := load_u64 e (memcpy_from sig.(r) 8 8);
       r3 := load_u64 e (memcpy_from sig.(r) 16 8);
       r4 := load_u64 e (memcpy_from sig.(r) 24 8);
       s1 := load_u64 e (memcpy_from sig.(s) 0 8);
       s2 := load_u64 e (memcpy_from sig.(s) 8 8);
       s3 := load_u64 e (memcpy_from sig.(s) 16 8);
       s4 := load_u64 e (memcpy_from sig.(s) 24 8) |}.
Proof.
  intros H. unfold signature_to_proto. rewrite H. reflexivity.
Qed.

Lemma reassembled_signature_to_proto (e : byte_order) (x : signature) (pb : Signature) :
  wf_signature x ->
  signature_to_proto e x = Returned pb ->
  reassembled e pb = x.
Proof.
  intros [Hr Hs] Hpb.
  destruct (s_is_even x) eqn:Heven.
  - rewrite signature_to_proto_canonical in Hpb by assumption.
    injection Hpb as <-. unfold reassembled. cbn [r1 r2 r3 r4 s1 s2 s3 s4].
    rewrite !store_load_u64 by (apply length_memcpy_from; lia).
    rewrite !chunks_concat by assumption. now destruct x.
  - unfold signature_to_proto in Hpb. rewrite Heven in Hpb. discriminate.
Qed.

(** ** The wire codec: round trip *)

(** C1. A canonical signature survives the wire: [signature_to_proto]
    returns a record, and [proto_to_signature] on that record reports
    success and leaves exactly the original [r] and [s] in the caller's
    buffer, whatever the byte order of the host and whatever the buffer
    held before. *)
Theorem signature_round_trip (e : byte_order) (x sig0 : signature) :
  wf_signature x -> wf_signature sig0 ->
  s_is_even x = true ->
  exists pb, signature_to_proto e x = Returned pb /\
             proto_to_signature e pb sig0 = (true, x).
Proof.
  intros Hx Hsig0 Heven.
  eexists. split; [apply signature_to_proto_canonical, Heven|].
  rewrite proto_to_signature_spec by assumption.
  rewrite (reassembled_signature_to_proto e x _ Hx
             (signature_to_proto_canonical e x Heven)).
  now rewrite Heven.
Qed.


Lemma signature_round_trip_witness :
  exists pb, signature_to_proto LittleEndian sample_signature = Returned pb /\
             proto_to_signature LittleEndian pb talz_signature
             = (true, sample_signature).
Proof.
  apply (signature_round_trip LittleEndian sample_signature talz_signature).
  - split; reflexivity.
  - split; reflexivity.
  - reflexivity.
Defined.

(** ** The wire codec: totality of the encoder *)

(** C2, as the code has it. [signature_to_proto] produces a record
    exactly for the canonical signatures; on a signature whose [s] ends
    in an odd byte its assertion fails and the process is aborted. *)
Theorem signature_to_proto_total_on_canonical (e : byte_order) (sig : signature) :
  (s_is_even sig = true -> exists pb, signature_to_proto e sig = Returned pb) /\
  (s_is_even sig = false -> signature_to_proto e sig = Aborted).
Proof.
  split; intros H.
  - eexists. apply signature_to_proto_canonical, H.
  - unfold signature_to_proto. rewrite H. reflexivity.
Qed.

Lemma signature_to_proto_total_on_canonical_witness :
  (exists pb, signature_to_proto BigEndian sample_signature = Returned pb) /\
  signature_to_proto BigEndian odd_signature = Aborted.
Proof.
  split.
  - apply (signature_to_proto_total_on_canonical BigEndian sample_signature).
    reflexivity.
  - apply (signature_to_proto_total_on_canonical BigEndian odd_signature).
    reflexivity.
Defined.

(** C2 as stated fails: a well-formed signature with an odd [s] makes the
    encoder abort, on either byte order. *)
Lemma signature_to_proto_aborts_on_odd_s :
  wf_signature odd_signature /\
  signature_to_proto LittleEndian odd_signature = Aborted /\
  signature_to_proto BigEndian odd_signature = Aborted.
Proof.
  repeat split; reflexivity.
Qed.

(** ** The wire codec: what the decoder leaves behind on failure *)


(** C5 as stated fails: decoding [odd_wire] into a zeroed buffer reports
    failure, and the buffer is no longer the zeroed one. *)
Lemma proto_to_signature_overwrites_on_failure :
  fst (proto_to_signature LittleEndian odd_wire talz_signature) = false /\
  snd (proto_to_signature LittleEndian odd_wire talz_signature) <> talz_signature.
Proof.
  split; [reflexivity|]. vm_compute. discriminate.
Qed.

(** C5, as the code has it. When [proto_to_signature] reports failure the
    caller's buffer has been overwritten all the same: it holds the
    complete reassembled signature, whose [s] is odd, so it differs from
    whatever canonical signature it held before. Only the boolean result
    tells the caller not to use it. *)
Theorem proto_to_signature_failure_output
    (e : byte_order) (pb : Signature) (sig0 : signature) :
  wf_signature sig0 ->
  fst (proto_to_signature e pb sig0) = false ->
  snd (proto_to_signature e pb sig0) = reassembled e pb /\
  s_is_even (snd (proto_to_signature e pb sig0)) = false /\
  (s_is_even sig0 = true -> snd (proto_to_signature e pb sig0) <> sig0).
Proof.
  intros Hwf. rewrite proto_to_signature_spec by assumption.
  cbn [fst snd]. intros Hodd. repeat split; [assumption|].
  intros Heven Heq. rewrite Heq in Hodd. congruence.
Qed.

Lemma proto_to_signature_failure_output_witness :
  snd (proto_to_signature LittleEndian odd_wire talz_signature)
  = reassembled LittleEndian odd_wire /\
  s_is_even (snd (proto_to_signature LittleEndian odd_wire talz_signature)) = false /\
  (s_is_even talz_signature = true ->
   snd (proto_to_signature LittleEndian odd_wire talz_signature) <> talz_signature).
Proof.
  apply (proto_to_signature_failure_output LittleEndian odd_wire talz_signature).
  - split; reflexivity.
  - reflexivity.
Defined.

(** ** The wire codec: the decoder *)

Lemma s_is_even_testbit (sig : signature) :
  s_is_even sig = negb (Z.testbit (u8_val (nth 31 sig.(s) x00)) 0).
Proof.
  unfold s_is_even. apply land_1_testbit.
Qed.

(** The low bit of byte 31 is the parity of the 256-bit integer. *)
Lemma s_is_even_parity (sig : signature) :
  length sig.(s) = 32%nat ->
  s_is_even sig = Z.even (be_value sig.(s)).
Proof.
  intros H. rewrite s_is_even_testbit, Z.bit0_odd, Z.negb_odd.
  destruct sig as [sr ss]. cbn [s] in *.
  explode ss H. unfold be_value. cbn [rev app nth le_value].
  match goal with
  | |- _ = Z.even (?a + 256 * ?b) =>
      replace (a + 256 * b) with (a + 2 * (128 * b)) by ring
  end.
  now rewrite Z.even_add_mul_2.
Qed.

Lemma be_value_chunks (a b c d : list u8) :
  length b = 8%nat -> length c = 8%nat -> length d = 8%nat ->
  be_value (a ++ b ++ c ++ d)
  = be_value a * 2 ^ 192 + be_value b * 2 ^ 128 + be_value c * 2 ^ 64 + be_value d.
Proof.
  intros Hb Hc Hd.
  rewrite !be_value_app, !length_app, Hb, Hc, Hd.
  change (256 ^ Z.of_nat (8 + (8 + 8))) with (2 ^ 192).
  change (256 ^ Z.of_nat (8 + 8)) with (2 ^ 64 * 2 ^ 64).
  change (256 ^ Z.of_nat 8) with (2 ^ 64).
  change (2 ^ 192) with (2 ^ 64 * 2 ^ 64 * 2 ^ 64).
  change (2 ^ 128) with (2 ^ 64 * 2 ^ 64).
  ring.
Qed.

(** C7. Whatever the record, the decoder writes the eight words in the
    order [r1 .. r4], [s1 .. s4], eight bytes each, so that [r1] and [s1]
    are the most significant chunks of the big-endian [r] and [s]; it then
    tests bit 0 of byte 31 of the reassembled [s] and reports failure when
    it is set, success when it is clear. *)
Theorem proto_to_signature_reassembles
    (e : byte_order) (pb : Signature) (sig0 : signature) :
  wf_signature sig0 ->
  let ok := fst (proto_to_signature e pb sig0) in
  let sig := snd (proto_to_signature e pb sig0) in
  sig.(r) = store_u64 e pb.(r1) ++ store_u64 e pb.(r2) ++
            store_u64 e pb.(r3) ++ store_u64 e pb.(r4) /\
  sig.(s) = store_u64 e pb.(s1) ++ store_u64 e pb.(s2) ++
            store_u64 e pb.(s3) ++ store_u64 e pb.(s4) /\
  be_value sig.(r)
  = be_value (store_u64 e pb.(r1)) * 2 ^ 192 + be_value (store_u64 e pb.(r2)) * 2 ^ 128
    + be_value (store_u64 e pb.(r3)) * 2 ^ 64 + be_value (store_u64 e pb.(r4)) /\
  be_value sig.(s)
  = be_value (store_u64 e pb.(s1)) * 2 ^ 192 + be_value (store_u64 e pb.(s2)) * 2 ^ 128
    + be_value (store_u64 e pb.(s3)) * 2 ^ 64 + be_value (store_u64 e pb.(s4)) /\
  (Z.testbit (u8_val (nth 31 sig.(s) x00)) 0 = true -> ok = false) /\
  (Z.testbit (u8_val (nth 31 sig.(s) x00)) 0 = false -> ok = true).
Proof.
  intros Hwf. cbv zeta. rewrite proto_to_signature_spec by assumption.
  cbn [fst snd]. rewrite s_is_even_testbit.
  cbn [reassembled r s].
  rewrite !be_value_chunks by apply length_store_u64.
  repeat split; try reflexivity; intros ->; reflexivity.
Qed.

Lemma proto_to_signature_reassembles_witness :
  fst (proto_to_signature LittleEndian odd_wire talz_signature) = false.
Proof.
  destruct (proto_to_signature_reassembles LittleEndian odd_wire talz_signature)
    as (_ & _ & _ & _ & Hodd & _).
  - split; reflexivity.
  - apply Hodd. reflexivity.
Defined.

(** ** The wire codec: the value of the eight fields *)


Lemma load_u64_range (e : byte_order) (bs : list u8) :
  length bs = 8%nat -> is_u64 (load_u64 e bs).
Proof.
  intros H. unfold is_u64. change (2 ^ 64) with (256 ^ Z.of_nat 8). rewrite <- H.
  destruct e; [apply le_value_bounds | apply be_value_bounds].
Qed.

(** C8 as stated fails on a little-endian host: the encoder copies the
    bytes, so [r1] of [sample_signature], whose [r] starts with the bytes
    01 02 .. 08, is 0x0807060504030201 and not 0x0102030405060708. *)
Lemma little_endian_fields_counterexample :
  exists pb,
    signature_to_proto LittleEndian sample_signature = Returned pb /\
    pb.(r1) = 0x0807060504030201 /\
    be_value (chunk sample_signature.(r) 0) = 0x0102030405060708 /\
    ~ fields_read_as be_value sample_signature pb.
Proof.
  eexists. split; [reflexivity|]. repeat split.
  intros (H & _). vm_compute in H. discriminate.
Qed.

(** C8, as the code has it. For a canonical signature the record holds
    eight unsigned 64-bit fields, [r1 .. r4] for bytes 0..7, 8..15, 16..23
    and 24..31 of [r] and [s1 .. s4] likewise for [s]. Each field holds
    the eight bytes of its chunk as [memcpy] left them, so its integer
    value is the chunk read in the byte order of the host: the big-endian
    value on a big-endian host, the little-endian value on a little-endian
    one. *)
Theorem signature_to_proto_fields (e : byte_order) (sig : signature) :
  wf_signature sig ->
  s_is_even sig = true ->
  exists pb,
    signature_to_proto e sig = Returned pb /\
    fields_read_as (load_u64 e) sig pb /\
    (e = BigEndian -> fields_read_as be_value sig pb) /\
    (e = LittleEndian -> fields_read_as le_value sig pb) /\
    (is_u64 pb.(r1) /\ is_u64 pb.(r2) /\ is_u64 pb.(r3) /\ is_u64 pb.(r4) /\
     is_u64 pb.(s1) /\ is_u64 pb.(s2) /\ is_u64 pb.(s3) /\ is_u64 pb.(s4)).
Proof.
  intros [Hr Hs] Heven.
  eexists. split; [apply signature_to_proto_canonical, Heven|].
  assert (Hall : fields_read_as (load_u64 e) sig
            {| r1 := load_u64 e (memcpy_from sig.(r) 0 8);
               r2 := load_u64 e (memcpy_from sig.(r) 8 8);
               r3 := load_u64 e (memcpy_from sig.(r) 16 8);
               r4 := load_u64 e (memcpy_from sig.(r) 24 8);
               s1 := load_u64 e (memcpy_from sig.(s) 0 8);
               s2 := load_u64 e (memcpy_from sig.(s) 8 8);
               s3 := load_u64 e (memcpy_from sig.(s) 16 8);
               s4 := load_u64 e (memcpy_from sig.(s) 24 8) |})
    by (repeat split).
  split; [exact Hall|]. split; [|split].
  - intros ->. exact Hall.
  - intros ->. exact Hall.
  - cbn [r1 r2 r3 r4 s1 s2 s3 s4].
    repeat split; apply load_u64_range, length_memcpy_from; lia.
Qed.

Lemma signature_to_proto_fields_witness :
  exists pb,
    signature_to_proto BigEndian sample_signature = Returned pb /\
    fields_read_as be_value sample_signature pb.
Proof.
  destruct (signature_to_proto_fields BigEndian sample_signature)
    as (pb & Hpb & _ & Hbe & _).
  - split; reflexivity.
  - reflexivity.
  - exists pb. split; [exact Hpb | apply Hbe; reflexivity].
Defined.

(** ** Packing a big number into 32 bytes *)

Lemma rev_replicate (k : nat) (x : u8) : rev (replicate k x) = replicate k x.
Proof.
  rewrite rev_alt. apply (reverse_replicate k x).
Qed.

Lemma le_bytes_zero (k : nat) : le_bytes k 0 = replicate k x00.
Proof.
  induction k as [|k IH]; [reflexivity|].
  cbn [le_bytes replicate]. rewrite Z.shiftr_0_l, IH. reflexivity.
Qed.

Lemma le_bytes_pad (n k : nat) (z : Z) :
  0 <= z < 256 ^ Z.of_nat n ->
  le_bytes (n + k) z = le_bytes n z ++ replicate k x00.
Proof.
  revert z. induction n as [|n IH]; intros z Hz.
  - cbn in Hz. replace z with 0 by lia. apply le_bytes_zero.
  - cbn [Nat.add le_bytes app]. f_equal. apply IH.
    rewrite Z.shiftr_div_pow2 by lia. change (2 ^ 8) with 256.
    rewrite Nat2Z.inj_succ, Z.pow_succ_r in Hz by lia.
    split; [apply Z.div_pos; lia|].
    apply Z.div_lt_upper_bound; lia.
Qed.

Lemma le_value_le_bytes (n : nat) (z : Z) :
  0 <= z < 256 ^ Z.of_nat n -> le_value (le_bytes n z) = z.
Proof.
  revert z. induction n as [|n IH]; intros z Hz.
  - cbn in *. lia.
  - cbn [le_bytes le_value]. rewrite u8_val_of_Z.
    rewrite Z.shiftr_div_pow2 by lia. change (2 ^ 8) with 256.
    rewrite Nat2Z.inj_succ, Z.pow_succ_r in Hz by lia.
    rewrite IH.
    + pose proof (Z.div_mod z 256). lia.
    + split; [apply Z.div_pos; lia|].
      apply Z.div_lt_upper_bound; lia.
Qed.

Lemma be_value_be_bytes (n : nat) (z : Z) :
  0 <= z < 256 ^ Z.of_nat n -> be_value (be_bytes n z) = z.
Proof.
  intros Hz. unfold be_value, be_bytes. rewrite rev_involutive.
  now apply le_value_le_bytes.
Qed.

Lemma length_be_bytes (n : nat) (z : Z) : length (be_bytes n z) = n.
Proof.
  unfold be_bytes. rewrite length_rev. apply length_le_bytes.
Qed.

Lemma BN_num_bytes_spec (a : Z) :
  0 <= BN_num_bytes a /\
  Z.abs a < 256 ^ BN_num_bytes a /\
  (forall m, 0 <= m -> Z.abs a < 256 ^ m -> BN_num_bytes a <= m).
Proof.
  unfold BN_num_bytes, BN_num_bits.
  destruct (Z.eqb_spec a 0) as [->|Hne].
  - change ((0 + 7) / 8) with 0. cbn. repeat split; try lia.
  - assert (Hpos : 0 < Z.abs a) by lia.
    pose proof (Z.log2_spec _ Hpos) as [Hlo Hhi].
    pose proof (Z.log2_nonneg (Z.abs a)) as Hl.
    set (b := Z.log2 (Z.abs a) + 1) in *.
    replace (Z.succ (Z.log2 (Z.abs a))) with b in Hhi by (unfold b; lia).
    pose proof (Z.div_mod (b + 7) 8 ltac:(lia)) as Hdm.
    pose proof (Z.mod_pos_bound (b + 7) 8 ltac:(lia)) as Hmb.
    assert (Hn : 0 <= (b + 7) / 8) by (apply Z.div_pos; lia).
    split; [exact Hn|]. split.
    + change 256 with (2 ^ 8). rewrite <- Z.pow_mul_r by lia.
      eapply Z.lt_le_trans; [exact Hhi|].
      apply Z.pow_le_mono_r; lia.
    + intros m Hm Hlt. change 256 with (2 ^ 8) in Hlt.
      rewrite <- Z.pow_mul_r in Hlt by lia.
      apply Z.log2_lt_pow2 in Hlt; [|exact Hpos].
      assert ((b + 7) / 8 < m + 1); [|lia].
      apply Z.div_lt_upper_bound; lia.
Qed.

(** What the two lines [len = BN_num_bytes(a); BN_bn2bin(a, buf + 32 - len)]
    leave in a zeroed 32-byte buffer, once [len <= 32] has been asserted:
    the magnitude of [a], big-endian, padded with zero bytes on the left. *)
Lemma pack_32 (a : Z) :
  BN_num_bytes a <= 32 ->
  memcpy_into (replicate 32 x00) (Z.to_nat (32 - BN_num_bytes a)) (BN_bn2bin a)
  = be_bytes 32 (Z.abs a)
  /\ Z.abs a < 2 ^ 256.
Proof.
  intros Hle. destruct (BN_num_bytes_spec a) as (Hn & Hlt & _).
  unfold BN_bn2bin. set (n := Z.to_nat (BN_num_bytes a)).
  assert (Hn32 : (n <= 32)%nat) by (unfold n; lia).
  replace (BN_num_bytes a) with (Z.of_nat n) in * by (unfold n; lia).
  split.
  - replace (Z.to_nat (32 - Z.of_nat n)) with (32 - n)%nat by lia.
    unfold memcpy_into. rewrite length_be_bytes.
    rewrite take_replicate, drop_replicate.
    replace (32 - (32 - n + n))%nat with 0%nat by lia.
    replace (Nat.min (32 - n) 32) with (32 - n)%nat by lia.
    cbn [replicate]. rewrite app_nil_r.
    unfold be_bytes at 2. replace 32%nat with (n + (32 - n))%nat at 2 by lia.
    rewrite le_bytes_pad by lia.
    rewrite rev_app_distr, rev_replicate. reflexivity.
  - eapply Z.lt_le_trans; [exact Hlt|].
    change (2 ^ 256) with (256 ^ 32). apply Z.pow_le_mono_r; lia.
Qed.

Lemma BN_num_bytes_le_32 (a : Z) : Z.abs a < 2 ^ 256 -> BN_num_bytes a <= 32.
Proof.
  intros H. apply BN_num_bytes_spec; [lia|exact H].
Qed.

(** A packed number ends in an even byte exactly when it is even. *)
Lemma s_is_even_be_bytes (rb : list u8) (z : Z) :
  0 <= z < 2 ^ 256 ->
  s_is_even {| r := rb; s := be_bytes 32 z |} = Z.even z.
Proof.
  intros Hz. rewrite s_is_even_parity by apply length_be_bytes.
  cbn [s]. now rewrite be_value_be_bytes.
Qed.

(** ** Signing *)

Section Signing.

Context {ssl : OpenSSL}.

(** What [sign_hash] computes from the raw signature of the primitive,
    when no assertion fails. *)
Lemma sign_hash_returns (k : EC_KEY) (h : sha256_double) (raw : ECDSA_SIG.t)
    (s' : Z) :
  ECDSA_do_sign h 32 k = Some raw ->
  s' = (if Z.odd raw.(ECDSA_SIG.s)
        then EC_GROUP_get_order (EC_KEY_get0_group k) - raw.(ECDSA_SIG.s)
        else raw.(ECDSA_SIG.s)) ->
  Z.odd s' = false ->
  0 <= raw.(ECDSA_SIG.r) < 2 ^ 256 ->
  0 <= s' < 2 ^ 256 ->
  sign_hash k h
  = Returned (Some {| r := be_bytes 32 raw.(ECDSA_SIG.r); s := be_bytes 32 s' |}).
Proof.
  intros Hraw Hs' Heven Hr Hs. unfold sign_hash. rewrite Hraw.
  unfold BN_is_odd, BN_sub.
  assert (Hstep :
    (if Z.odd raw.(ECDSA_SIG.s)
     then ASSERT negb (Z.odd (EC_GROUP_get_order (EC_KEY_get0_group k)
                              - raw.(ECDSA_SIG.s)))
          IN Returned (EC_GROUP_get_order (EC_KEY_get0_group k)
                       - raw.(ECDSA_SIG.s))
     else Returned raw.(ECDSA_SIG.s)) = Returned s').
  { destruct (Z.odd raw.(ECDSA_SIG.s)); subst s'; [|reflexivity].
    rewrite Heven. reflexivity. }
  cbv zeta. rewrite Hstep. cbn [obind].
  pose proof (BN_num_bytes_le_32 raw.(ECDSA_SIG.r) ltac:(lia)) as Hlr.
  pose proof (BN_num_bytes_le_32 s' ltac:(lia)) as Hls.
  destruct (pack_32 _ Hlr) as [Hpr _]. destruct (pack_32 _ Hls) as [Hps _].
  apply Z.leb_le in Hlr, Hls. rewrite Hlr, Hls. cbn [assert obind].
  cbn [talz_signature r s]. rewrite Hpr, Hps.
  rewrite !Z.abs_eq by lia. reflexivity.
Qed.

(** C3. Let the signing primitive respect its contract on the group of
    the key: the order is odd and fits 256 bits, and a raw signature has
    [0 < r < order] and [0 < s < order]. Then [sign_hash] returns [NULL]
    when the primitive fails, and otherwise returns a signature holding
    [r] and the canonical [s] as 32-byte big-endian numbers, where the
    low bit of byte 31 of [s] is 0 and [s] is [order - raw s] when the
    raw [s] is odd, the raw [s] itself when it is even. *)
Theorem sign_hash_canonical (k : EC_KEY) (h : sha256_double) :
  let order := EC_GROUP_get_order (EC_KEY_get0_group k) in
  Z.odd order = true ->
  order < 2 ^ 256 ->
  (forall raw, ECDSA_do_sign h 32 k = Some raw ->
               0 < raw.(ECDSA_SIG.r) < order /\ 0 < raw.(ECDSA_SIG.s) < order) ->
  match ECDSA_do_sign h 32 k with
  | None => sign_hash k h = Returned None
  | Some raw =>
    exists sig,
      sign_hash k h = Returned (Some sig) /\
      wf_signature sig /\
      Z.land (u8_val (nth 31 sig.(s) x00)) 1 = 0 /\
      be_value sig.(r) = raw.(ECDSA_SIG.r) /\
      (Z.odd raw.(ECDSA_SIG.s) = true ->
       be_value sig.(s) = order - raw.(ECDSA_SIG.s)) /\
      (Z.odd raw.(ECDSA_SIG.s) = false ->
       be_value sig.(s) = raw.(ECDSA_SIG.s))
  end.
Proof.
  intros order Hodd Hord Hcontract.
  destruct (ECDSA_do_sign h 32 k) as [raw|] eqn:Hraw.
  2: { unfold sign_hash. rewrite Hraw. reflexivity. }
  destruct (Hcontract raw eq_refl) as [Hr Hs].
  set (s' := if Z.odd raw.(ECDSA_SIG.s) then order - raw.(ECDSA_SIG.s)
             else raw.(ECDSA_SIG.s)).
  assert (Heven : Z.odd s' = false).
  { unfold s'. destruct (Z.odd raw.(ECDSA_SIG.s)) eqn:E; [|exact E].
    rewrite Z.odd_sub, Hodd, E. reflexivity. }
  assert (Hs' : 0 <= s' < 2 ^ 256).
  { unfold s'. destruct (Z.odd raw.(ECDSA_SIG.s)); lia. }
  exists {| r := be_bytes 32 raw.(ECDSA_SIG.r); s := be_bytes 32 s' |}.
  split; [apply (sign_hash_returns k h raw s' Hraw eq_refl Heven); lia|].
  split; [split; apply length_be_bytes|].
  split.
  { apply Z.eqb_eq. fold (s_is_even {| r := be_bytes 32 raw.(ECDSA_SIG.r);
                                       s := be_bytes 32 s' |}).
    rewrite s_is_even_be_bytes by exact Hs'.
    now rewrite <- Z.negb_odd, Heven. }
  cbn [r s]. change (2 ^ 256) with (256 ^ Z.of_nat 32) in *.
  rewrite !be_value_be_bytes by lia.
  unfold s'. repeat split; intros ->; reflexivity.
Qed.

(** Without any assumption on the primitive: a signature that
    [sign_hash] returns is canonical. *)
Lemma sign_hash_only_returns_canonical (k : EC_KEY) (h : sha256_double)
    (sig : signature) :
  sign_hash k h = Returned (Some sig) ->
  wf_signature sig /\ s_is_even sig = true.
Proof.
  unfold sign_hash. destruct (ECDSA_do_sign h 32 k) as [raw|]; [|discriminate].
  set (first :=
    if BN_is_odd raw.(ECDSA_SIG.s)
    then ASSERT negb (BN_is_odd (BN_sub (EC_GROUP_get_order (EC_KEY_get0_group k))
                                        raw.(ECDSA_SIG.s)))
         IN Returned (BN_sub (EC_GROUP_get_order (EC_KEY_get0_group k))
                             raw.(ECDSA_SIG.s))
    else Returned raw.(ECDSA_SIG.s)).
  assert (Hfirst : forall s', first = Returned s' -> Z.odd s' = false).
  { intros s'. unfold first, BN_is_odd.
    destruct (Z.odd raw.(ECDSA_SIG.s)) eqn:E.
    - destruct (Z.odd (BN_sub _ _)) eqn:E'; cbn; [discriminate|].
      intros [= <-]. exact E'.
    - intros [= <-]. exact E. }
  cbv zeta. fold first. destruct first as [s'|]; [|discriminate].
  specialize (Hfirst s' eq_refl). cbn [obind].
  destruct (Z.leb_spec (BN_num_bytes raw.(ECDSA_SIG.r)) 32) as [Hlr|]; [|discriminate].
  destruct (Z.leb_spec (BN_num_bytes s') 32) as [Hls|]; [|discriminate].
  cbn [assert obind talz_signature r s]. intros [= <-].
  destruct (pack_32 _ Hlr) as [Hpr _]. destruct (pack_32 _ Hls) as [Hps Hb].
  cbn [replicate] in Hpr, Hps.
  rewrite Hpr, Hps. split; [split; apply length_be_bytes|].
  rewrite s_is_even_be_bytes by lia.
  rewrite <- Z.negb_odd.
  destruct (Z.abs_eq_or_opp s') as [-> | ->];
    rewrite ?Z.odd_opp, Hfirst; reflexivity.
Qed.

End Signing.

Lemma sign_hash_canonical_witness :
  exists sig,
    @sign_hash demo_ssl 5 [x01] = Returned (Some sig) /\
    be_value sig.(s) = secp256k1_order - 5.
Proof.
  pose proof (@sign_hash_canonical demo_ssl 5 [x01]) as H.
  cbv zeta in H. specialize (H eq_refl eq_refl).
  assert (Hraw : forall raw,
            @ECDSA_do_sign demo_ssl [x01] 32 5 = Some raw ->
            0 < raw.(ECDSA_SIG.r) < secp256k1_order /\
            0 < raw.(ECDSA_SIG.s) < secp256k1_order).
  { intros raw [= <-]. vm_compute. repeat split. }
  specialize (H Hraw). cbn in H.
  destruct H as (sig & Hsig & _ & _ & _ & Hodd & _).
  exists sig. split; [exact Hsig | apply Hodd; reflexivity].
Defined.

(** ** The digest of one input *)

Section Digest.

Context {txin_fields tx_fields : Type} {btc : Bitcoin txin_fields tx_fields}.

Local Abbreviation tx_input := (bitcoin_tx_input txin_fields).
Local Abbreviation tx_t := (bitcoin_tx txin_fields tx_fields).


Lemma assert_inputs_zeroed_ok (inputs : list tx_input) :
  Forall zeroed inputs -> assert_inputs_zeroed inputs = Returned tt.
Proof.
  induction 1 as [|i rest Hi _ IH]; [reflexivity|].
  cbn [assert_inputs_zeroed]. unfold zeroed in Hi. rewrite Hi, IH. reflexivity.
Qed.

Lemma store_input_twice (n : nat) (f g : tx_input -> tx_input) (tx : tx_t) :
  store_input n f (store_input n g tx) = store_input n (f ∘ g) tx.
Proof.
  unfold store_input. cbn [input tx_other]. now rewrite list_alter_alter_eq.
Qed.

Lemma store_input_ext (n : nat) (f g : tx_input -> tx_input) (tx : tx_t) :
  (forall i, tx.(input) !! n = Some i -> f i = g i) ->
  store_input n f tx = store_input n g tx.
Proof.
  intros H. unfold store_input. f_equal. now apply list_alter_ext.
Qed.

Lemma store_input_same (n : nat) (f : tx_input -> tx_input) (tx : tx_t) :
  (forall i, tx.(input) !! n = Some i -> f i = i) ->
  store_input n f tx = tx.
Proof.
  intros H. rewrite (store_input_ext n f id) by exact H.
  unfold store_input. rewrite list_alter_id by reflexivity. now destruct tx.
Qed.

(** The value and the final transaction of a call whose assertions hold. *)
Lemma sha256_tx_one_input_returns (tx : tx_t) (n : nat)
    (script : option (list u8)) (script_len : Z) :
  (n < input_count tx)%nat ->
  Forall zeroed tx.(input) ->
  sha256_tx_one_input tx n script script_len
  = (Returned (digest_of (installed tx n script script_len)),
     store_input n (set_script None) tx).
Proof.
  intros Hn Hz. unfold sha256_tx_one_input.
  apply Nat.ltb_lt in Hn. rewrite Hn. cbn [negb].
  rewrite assert_inputs_zeroed_ok by exact Hz.
  cbv zeta. f_equal. unfold installed.
  rewrite !store_input_twice. apply store_input_ext.
  intros i Hi. rewrite Forall_lookup in Hz. specialize (Hz n i Hi).
  unfold zeroed in Hz. destruct i as [l p o]. cbn in *. now subst l.
Qed.

(** A call whose assertions fail leaves the transaction alone. *)
Lemma sha256_tx_one_input_aborts (tx : tx_t) (n : nat)
    (script : option (list u8)) (script_len : Z) :
  fst (sha256_tx_one_input tx n script script_len) = Aborted ->
  snd (sha256_tx_one_input tx n script script_len) = tx.
Proof.
  unfold sha256_tx_one_input.
  destruct (negb (n <? input_count tx)%nat); [reflexivity|].
  destruct (assert_inputs_zeroed tx.(input)); [discriminate | reflexivity].
Qed.

(** Installing a script forgets what the input's script was before. *)
Lemma installed_store_script (tx : tx_t) (n : nat) (p q : option (list u8))
    (len : Z) :
  installed (store_input n (set_script q) tx) n p len = installed tx n p len.
Proof.
  unfold installed. rewrite !store_input_twice. apply store_input_ext.
  intros i _. now destruct i.
Qed.

(** C4, as the code has it. Let every input of the transaction have an
    empty script, as the function asserts on entry ([script_length] is
    0). After a call, on whatever path it ends, every input has an empty
    script again, and the transaction is the one before the call except
    for one field: the script pointer of input [input_num] is [NULL],
    whatever it was. So the transaction is identical to its state before
    the call exactly as far as that pointer was [NULL] already, and in
    particular when all the empty scripts were null pointers; a call
    that stops at an assertion has changed nothing. *)
Theorem sha256_tx_one_input_restores (tx : tx_t) (input_num : nat)
    (script : option (list u8)) (script_len : Z) :
  Forall zeroed tx.(input) ->
  let after := snd (sha256_tx_one_input tx input_num script script_len) in
  Forall zeroed after.(input) /\
  after = store_input input_num (set_script None) tx /\
  (Forall null_script tx.(input) -> after = tx) /\
  (fst (sha256_tx_one_input tx input_num script script_len) = Aborted ->
   after = tx).
Proof.
  intros Hz after.
  assert (Hafter : after = store_input input_num (set_script None) tx).
  { unfold after. destruct (Nat.ltb_spec input_num (input_count tx)) as [Hn|Hn].
    - now rewrite sha256_tx_one_input_returns.
    - unfold sha256_tx_one_input.
      apply Nat.ltb_ge in Hn. rewrite Hn. cbn [negb snd].
      symmetry. apply store_input_same. intros i Hi.
      apply lookup_lt_Some in Hi. apply Nat.ltb_ge in Hn.
      unfold input_count in Hn. lia. }
  split; [|split; [exact Hafter|split]].
  - rewrite Hafter. unfold store_input. cbn [input].
    apply Forall_alter; [exact Hz|]. intros i _ Hi. exact Hi.
  - intros Hnull. rewrite Hafter. apply store_input_same.
    intros i Hi. rewrite Forall_lookup in Hnull. specialize (Hnull _ _ Hi).
    unfold null_script in Hnull. destruct i as [l p o]. cbn in *. now subst p.
  - apply sha256_tx_one_input_aborts.
Qed.

(** Two calls in a row, on any transaction and any input in range. *)
Lemma sha256_tx_one_input_repeatable (tx : tx_t) (n : nat)
    (script : option (list u8)) (script_len : Z) :
  (n < input_count tx)%nat ->
  Forall zeroed tx.(input) ->
  exists hash tx1,
    sha256_tx_one_input tx n script script_len = (Returned hash, tx1) /\
    sha256_tx_one_input tx1 n script script_len = (Returned hash, tx1) /\
    Forall zeroed tx1.(input).
Proof.
  intros Hn Hz.
  assert (Hz1 : Forall zeroed (store_input n (set_script None) tx).(input)).
  { unfold store_input. cbn [input].
    apply Forall_alter; [exact Hz|]. intros i _ Hi. exact Hi. }
  exists (digest_of (installed tx n script script_len)),
         (store_input n (set_script None) tx).
  split; [now apply sha256_tx_one_input_returns|]. split; [|exact Hz1].
  rewrite sha256_tx_one_input_returns; [| |exact Hz1].
  - rewrite installed_store_script. f_equal.
    rewrite store_input_twice. apply store_input_ext. intros i _. now destruct i.
  - unfold input_count, store_input in *. cbn [input].
    now rewrite length_alter.
Qed.

(** C9. On a transaction with one input whose script is empty, two
    successive calls with the same subscript return the same digest, and
    the script of the input is empty before the first call, between the
    two and after the second. *)
Theorem sha256_tx_one_input_twice (i0 : tx_input) (other : tx_fields)
    (script : option (list u8)) (script_len : Z) :
  zeroed i0 ->
  let tx := {| input := [i0]; tx_other := other |} in
  exists hash tx1 tx2,
    sha256_tx_one_input tx 0 script script_len = (Returned hash, tx1) /\
    sha256_tx_one_input tx1 0 script script_len = (Returned hash, tx2) /\
    Forall zeroed tx.(input) /\
    Forall zeroed tx1.(input) /\
    Forall zeroed tx2.(input).
Proof.
  intros Hi0 tx.
  assert (Hz : Forall zeroed tx.(input)) by (repeat constructor; exact Hi0).
  destruct (sha256_tx_one_input_repeatable tx 0 script script_len)
    as (hash & tx1 & H1 & H2 & Hz1); [cbn; lia | exact Hz |].
  exists hash, tx1, tx1. repeat split; assumption.
Qed.

End Digest.

(** ** Verification *)

Section Verification.

Context {txin_fields tx_fields : Type}.
Context {ssl : OpenSSL} {btc : Bitcoin txin_fields tx_fields}.

Local Abbreviation tx_t := (bitcoin_tx txin_fields tx_fields).


(** On a canonical signature [check_signed_hash] returns, and its
    answer is the engine's on the two 256-bit numbers as they are. *)
Lemma check_signed_hash_canonical (hash : sha256_double) (sig : signature)
    (key : pubkey.t) :
  wf_signature sig ->
  s_is_even sig = true ->
  check_signed_hash hash sig key
  = Returned (engine_verdict hash (be_value sig.(r)) (be_value sig.(s)) key).
Proof.
  intros [Hr Hs] Heven. unfold check_signed_hash, engine_verdict, BN_bin2bn.
  rewrite Heven. cbn [assert obind].
  rewrite !take_ge by lia.
  destruct (o2i_ECPublicKey _ _ _) as [eckey|]; [|reflexivity].
  cbv zeta.
  destruct (_ =? 0); [reflexivity|]. destruct (_ =? -1); reflexivity.
Qed.

Lemma check_signed_hash_odd (hash : sha256_double) (sig : signature)
    (key : pubkey.t) :
  s_is_even sig = false -> check_signed_hash hash sig key = Aborted.
Proof.
  intros Hodd. unfold check_signed_hash. rewrite Hodd. reflexivity.
Qed.

(** C6. Under the preconditions of the call (input in range, all
    scripts empty, a pay-to-script-hash output, two canonical
    signatures), one digest is computed, both component verifications
    over it return, and [check_2of2_sig] returns their conjunction:
    true exactly when both return true, although the second one is
    skipped when the first returns false. *)
Theorem check_2of2_sig_both (tx : tx_t) (input_num : nat)
    (output : bitcoin_tx_output.t) (key1 key2 : pubkey.t)
    (sig1 sig2 : signature) :
  (input_num < input_count tx)%nat ->
  Forall zeroed tx.(input) ->
  is_p2sh output.(bitcoin_tx_output.script)
          output.(bitcoin_tx_output.script_length) = true ->
  wf_signature sig1 -> wf_signature sig2 ->
  s_is_even sig1 = true -> s_is_even sig2 = true ->
  exists hash v1 v2,
    fst (sha256_tx_one_input tx input_num
           output.(bitcoin_tx_output.script)
           output.(bitcoin_tx_output.script_length)) = Returned hash /\
    check_signed_hash hash sig1 key1 = Returned v1 /\
    check_signed_hash hash sig2 key2 = Returned v2 /\
    fst (check_2of2_sig tx input_num output key1 key2 sig1 sig2)
    = Returned (v1 && v2) /\
    (fst (check_2of2_sig tx input_num output key1 key2 sig1 sig2) = Returned true
     <-> v1 = true /\ v2 = true).
Proof.
  intros Hn Hz Hp2sh Hwf1 Hwf2 He1 He2.
  pose proof (sha256_tx_one_input_returns tx input_num
                output.(bitcoin_tx_output.script)
                output.(bitcoin_tx_output.script_length) Hn Hz) as Hhash.
  pose proof (fun h => check_signed_hash_canonical h sig1 key1 Hwf1 He1) as H1.
  pose proof (fun h => check_signed_hash_canonical h sig2 key2 Hwf2 He2) as H2.
  eexists _, _, _.
  assert (Hres :
    fst (check_2of2_sig tx input_num output key1 key2 sig1 sig2)
    = Returned (engine_verdict
                  (digest_of (installed tx input_num
                                output.(bitcoin_tx_output.script)
                                output.(bitcoin_tx_output.script_length)))
                  (be_value sig1.(r)) (be_value sig1.(s)) key1
                && engine_verdict
                  (digest_of (installed tx input_num
                                output.(bitcoin_tx_output.script)
                                output.(bitcoin_tx_output.script_length)))
                  (be_value sig2.(r)) (be_value sig2.(s)) key2)).
  { unfold check_2of2_sig. apply Nat.ltb_lt in Hn. rewrite Hn, Hp2sh.
    cbn [negb]. rewrite Hhash. cbn [fst]. rewrite H1, H2. cbn [obind].
    now destruct (engine_verdict _ _ _ key1). }
  split; [rewrite Hhash; reflexivity|].
  split; [apply H1|]. split; [apply H2|]. split; [exact Hres|].
  rewrite Hres. split.
  - intros [= Hb]. now apply andb_true_iff in Hb.
  - intros [-> ->]. reflexivity.
Qed.

(** C10. The decoder tests the parity of the reassembled [s] and
    nothing else: its verdict is the evenness of that 256-bit number.
    Hence every pair of a 256-bit [r] and an even 256-bit [s], however
    large, is the accepted decoding of some record; and
    [check_signed_hash] hands such numbers to the engine unchanged, its
    answer being the engine's. *)
Theorem proto_to_signature_checks_parity_only (e : byte_order) (sig0 : signature) :
  wf_signature sig0 ->
  (forall pb,
     fst (proto_to_signature e pb sig0)
     = Z.even (be_value (snd (proto_to_signature e pb sig0)).(s))) /\
  (forall rv sv,
     0 <= rv < 2 ^ 256 -> 0 <= sv < 2 ^ 256 -> Z.even sv = true ->
     exists pb sig,
       proto_to_signature e pb sig0 = (true, sig) /\
       be_value sig.(r) = rv /\ be_value sig.(s) = sv /\
       forall hash key,
         check_signed_hash hash sig key = Returned (engine_verdict hash rv sv key)).
Proof.
  intros Hwf. split.
  - intros pb. rewrite proto_to_signature_spec by assumption. cbn [fst snd].
    apply s_is_even_parity, wf_reassembled.
  - intros rv sv Hr Hs Heven.
    set (x := {| r := be_bytes 32 rv; s := be_bytes 32 sv |}).
    assert (Hwfx : wf_signature x) by (split; apply length_be_bytes).
    assert (Hx : s_is_even x = true)
      by (unfold x; now rewrite s_is_even_be_bytes).
    pose proof (signature_to_proto_canonical e x Hx) as Henc.
    eexists _, x. split.
    { rewrite proto_to_signature_spec by assumption.
      rewrite (reassembled_signature_to_proto e x _ Hwfx Henc).
      now rewrite Hx. }
    change (2 ^ 256) with (256 ^ Z.of_nat 32) in *.
    assert (Hrv : be_value x.(r) = rv) by (apply be_value_be_bytes, Hr).
    assert (Hsv : be_value x.(s) = sv) by (apply be_value_be_bytes, Hs).
    split; [exact Hrv|]. split; [exact Hsv|].
    intros hash key. rewrite check_signed_hash_canonical by assumption.
    now rewrite Hrv, Hsv.
Qed.

End Verification.

(** ** The theorems at work on the small engine *)

Lemma sha256_tx_one_input_restores_witness :
  Forall zeroed
    (snd (sha256_tx_one_input (btc := demo_btc) stale_tx 0 (Some [x51]) 1)).(input) /\
  snd (sha256_tx_one_input (btc := demo_btc) stale_tx 0 (Some [x51]) 1)
  = store_input 0 (set_script None) stale_tx /\
  snd (sha256_tx_one_input (btc := demo_btc) demo_tx 0 (Some [x51]) 1) = demo_tx.
Proof.
  destruct (sha256_tx_one_input_restores (btc := demo_btc) stale_tx 0 (Some [x51]) 1)
    as (Hzeroed & Hafter & _ & _); [repeat constructor|].
  destruct (sha256_tx_one_input_restores (btc := demo_btc) demo_tx 0 (Some [x51]) 1)
    as (_ & _ & Hsame & _); [repeat constructor|].
  split; [exact Hzeroed|]. split; [exact Hafter|].
  apply Hsame. repeat constructor.
Defined.

(** C4 as stated fails: [stale_tx] satisfies the precondition, its one
    script having length 0, and the call returns a digest; but the input
    entered with a script pointer that was not [NULL] and leaves with
    [NULL], so the transaction is not identical to the one before the
    call. *)
Lemma sha256_tx_one_input_nulls_stale_pointer :
  Forall zeroed stale_tx.(input) /\
  (exists hash,
     fst (sha256_tx_one_input (btc := demo_btc) stale_tx 0 (Some [x51]) 1)
     = Returned hash) /\
  snd (sha256_tx_one_input (btc := demo_btc) stale_tx 0 (Some [x51]) 1)
  = {| input := [demo_input]; tx_other := tt |} /\
  snd (sha256_tx_one_input (btc := demo_btc) stale_tx 0 (Some [x51]) 1)
  <> stale_tx.
Proof.
  split; [repeat constructor|]. split; [eexists; reflexivity|].
  split; [reflexivity|]. intros H. vm_compute in H. discriminate H.
Qed.

Lemma sha256_tx_one_input_twice_witness :
  exists hash tx1 tx2,
    sha256_tx_one_input (btc := demo_btc) demo_tx 0 (Some [x51]) 1
    = (Returned hash, tx1) /\
    sha256_tx_one_input (btc := demo_btc) tx1 0 (Some [x51]) 1
    = (Returned hash, tx2) /\
    Forall zeroed demo_tx.(input) /\
    Forall zeroed tx1.(input) /\
    Forall zeroed tx2.(input).
Proof.
  apply (sha256_tx_one_input_twice (btc := demo_btc) demo_input tt (Some [x51]) 1).
  reflexivity.
Defined.

Lemma check_2of2_sig_both_witness :
  exists v1 v2,
    fst (check_2of2_sig (ssl := demo_ssl) (btc := demo_btc)
           demo_tx 0 demo_output demo_key demo_key
           sample_signature talz_signature)
    = Returned (v1 && v2).
Proof.
  destruct (check_2of2_sig_both (ssl := demo_ssl) (btc := demo_btc)
              demo_tx 0 demo_output demo_key demo_key
              sample_signature talz_signature)
    as (hash & v1 & v2 & _ & _ & _ & Hres & _).
  - cbn. lia.
  - repeat constructor.
  - reflexivity.
  - split; reflexivity.
  - split; reflexivity.
  - reflexivity.
  - reflexivity.
  - exists v1, v2. exact Hres.
Defined.

Lemma proto_to_signature_checks_parity_only_witness :
  exists pb sig,
    proto_to_signature LittleEndian pb talz_signature = (true, sig) /\
    be_value sig.(r) = 2 ^ 256 - 1 /\
    be_value sig.(s) = 2 ^ 256 - 2 /\
    secp256k1_order <= be_value sig.(s).
Proof.
  destruct (proto_to_signature_checks_parity_only
              (ssl := demo_ssl) (btc := demo_btc) LittleEndian talz_signature)
    as [_ Hall].
  - split; reflexivity.
  - destruct (Hall (2 ^ 256 - 1) (2 ^ 256 - 2)) as (pb & sig & Hdec & Hr & Hs & _).
    + vm_compute. split; [discriminate | reflexivity].
    + vm_compute. split; [discriminate | reflexivity].
    + reflexivity.
    + exists pb, sig. rewrite Hr, Hs. repeat split; try assumption.
      vm_compute. discriminate.
Defined.

(** Outside the preconditions the skipped call shows: when the first
    signature is refused and the second is not canonical,
    [check_2of2_sig] returns false, while the second verification on its
    own would stop at its assertion. *)
Lemma check_2of2_sig_skips_second_assertion :
  fst (check_2of2_sig (ssl := demo_ssl) (btc := demo_btc)
         demo_tx 0 demo_output demo_key demo_key
         sample_signature odd_signature)
  = Returned false /\
  forall hash,
    check_signed_hash (ssl := demo_ssl) (btc := demo_btc)
      hash odd_signature demo_key = Aborted.
Proof.
  split; [reflexivity|]. intros hash. now apply check_signed_hash_odd.
Qed.

(** * Further properties of the code *)

(** ** The codec in the other direction and across hosts *)

Lemma load_store_u64 (e : byte_order) (z : Z) :
  is_u64 z -> load_u64 e (store_u64 e z) = z.
Proof.
  unfold is_u64. change (2 ^ 64) with (256 ^ Z.of_nat 8). intros Hz.
  destruct e; [now apply le_value_le_bytes | now apply be_value_be_bytes].
Qed.

Lemma memcpy_from_chunks (a b c d : list u8) :
  length a = 8%nat -> length b = 8%nat -> length c = 8%nat -> length d = 8%nat ->
  memcpy_from (a ++ b ++ c ++ d) 0 8 = a /\
  memcpy_from (a ++ b ++ c ++ d) 8 8 = b /\
  memcpy_from (a ++ b ++ c ++ d) 16 8 = c /\
  memcpy_from (a ++ b ++ c ++ d) 24 8 = d.
Proof.
  intros Ha Hb Hc Hd.
  explode a Ha. explode b Hb. explode c Hc. explode d Hd.
  repeat split.
Qed.

Lemma store_other_load (e : byte_order) (bs : list u8) :
  length bs = 8%nat -> store_u64 (other_order e) (load_u64 e bs) = rev bs.
Proof.
  intros H. destruct e; cbn [other_order store_u64 load_u64].
  - unfold be_bytes. rewrite <- H, le_bytes_le_value. reflexivity.
  - unfold be_value. rewrite <- H, <- (length_rev bs). apply le_bytes_le_value.
Qed.

(** X1. Encoding after decoding gives the record back: when the fields
    of a record are 64-bit values and the decoder accepts it, the encoder
    applied to the decoded signature returns that very record; when the
    decoder refuses it, the encoder aborts on what the decoder left in the
    buffer. *)
Theorem proto_round_trip (e : byte_order) (pb : Signature) (sig0 : signature) :
  wf_signature sig0 ->
  wf_Signature pb ->
  let ok := fst (proto_to_signature e pb sig0) in
  let sig := snd (proto_to_signature e pb sig0) in
  (ok = true -> signature_to_proto e sig = Returned pb) /\
  (ok = false -> signature_to_proto e sig = Aborted).
Proof.
  intros Hwf (H1 & H2 & H3 & H4 & H5 & H6 & H7 & H8). cbv zeta.
  rewrite proto_to_signature_spec by assumption. cbn [fst snd].
  split; intros Hok.
  - rewrite signature_to_proto_canonical by assumption.
    cbn [reassembled r s].
    destruct (memcpy_from_chunks (store_u64 e pb.(r1)) (store_u64 e pb.(r2))
                (store_u64 e pb.(r3)) (store_u64 e pb.(r4)))
      as (-> & -> & -> & ->); try apply length_store_u64.
    destruct (memcpy_from_chunks (store_u64 e pb.(s1)) (store_u64 e pb.(s2))
                (store_u64 e pb.(s3)) (store_u64 e pb.(s4)))
      as (-> & -> & -> & ->); try apply length_store_u64.
    rewrite !load_store_u64 by assumption. now destruct pb.
  - unfold signature_to_proto. rewrite Hok. reflexivity.
Qed.

Lemma proto_round_trip_witness :
  signature_to_proto LittleEndian
    (snd (proto_to_signature LittleEndian odd_wire talz_signature)) = Aborted.
Proof.
  destruct (proto_round_trip LittleEndian odd_wire talz_signature) as [_ Hno].
  - split; reflexivity.
  - unfold wf_Signature, is_u64. cbn. lia.
  - apply Hno. reflexivity.
Defined.

(** X2. The encoder loses nothing: two 32-byte signatures with the same
    wire record are the same signature. *)
Theorem signature_to_proto_injective (e : byte_order) (x y : signature)
    (pb : Signature) :
  wf_signature x -> wf_signature y ->
  signature_to_proto e x = Returned pb ->
  signature_to_proto e y = Returned pb ->
  x = y.
Proof.
  intros Hx Hy Hpx Hpy.
  rewrite <- (reassembled_signature_to_proto e x pb Hx Hpx).
  apply (reassembled_signature_to_proto e y pb Hy Hpy).
Qed.

Lemma signature_to_proto_injective_witness :
  sample_signature = sample_signature.
Proof.
  eapply (signature_to_proto_injective LittleEndian
            sample_signature sample_signature).
  - split; reflexivity.
  - split; reflexivity.
  - reflexivity.
  - reflexivity.
Defined.

(** X3. A record written on a host of one byte order and read on a host
    of the other gives the signature with every 8-byte chunk of [r] and
    of [s] reversed (the signature itself only when every chunk reads
    the same in both directions), and the verdict of the decoder is
    taken on bit 0 of byte 24 of the original [s]. *)
Theorem proto_to_signature_other_host (e : byte_order) (x sig0 : signature)
    (pb : Signature) :
  wf_signature x -> wf_signature sig0 ->
  signature_to_proto e x = Returned pb ->
  proto_to_signature (other_order e) pb sig0
  = (negb (Z.testbit (u8_val (nth 24 x.(s) x00)) 0),
     {| r := swap_chunks x.(r); s := swap_chunks x.(s) |}).
Proof.
  intros [Hr Hs] Hwf Hpb.
  destruct (s_is_even x) eqn:Heven.
  2: { unfold signature_to_proto in Hpb. rewrite Heven in Hpb. discriminate. }
  rewrite signature_to_proto_canonical in Hpb by assumption.
  injection Hpb as <-.
  rewrite proto_to_signature_spec by assumption.
  unfold reassembled. cbn [r1 r2 r3 r4 s1 s2 s3 s4].
  rewrite !store_other_load by (apply length_memcpy_from; lia).
  fold (chunk x.(r) 0) (chunk x.(r) 1) (chunk x.(r) 2) (chunk x.(r) 3).
  fold (chunk x.(s) 0) (chunk x.(s) 1) (chunk x.(s) 2) (chunk x.(s) 3).
  fold (swap_chunks x.(r)) (swap_chunks x.(s)).
  f_equal. rewrite s_is_even_testbit. cbn [s].
  destruct x as [xr xs]. cbn [s] in *. clear Heven Hr.
  explode xs Hs. reflexivity.
Qed.

Lemma proto_to_signature_other_host_witness :
  exists pb,
    signature_to_proto LittleEndian sample_signature = Returned pb /\
    snd (proto_to_signature BigEndian pb talz_signature) <> sample_signature.
Proof.
  eexists. split; [reflexivity|].
  pose proof (proto_to_signature_other_host LittleEndian sample_signature
                talz_signature _ ltac:(split; reflexivity)
                ltac:(split; reflexivity) eq_refl) as H.
  cbn [other_order] in H. rewrite H.
  cbn [snd]. vm_compute. discriminate.
Defined.

Lemma testbit0_u8_of_Z (z : Z) : Z.testbit (u8_val (u8_of_Z z)) 0 = Z.odd z.
Proof.
  rewrite u8_val_of_Z. change 256 with (2 ^ 8).
  rewrite Z.mod_pow2_bits_low by lia. apply Z.bit0_odd.
Qed.

(** X4. Which bit of the record decides: on a big-endian host the decoder
    accepts a record exactly when the word [s4] is even; on a
    little-endian host exactly when bit 56 of [s4] is clear. *)
Theorem proto_to_signature_deciding_bit (pb : Signature) (sig0 : signature) :
  wf_signature sig0 ->
  fst (proto_to_signature BigEndian pb sig0) = Z.even pb.(s4) /\
  fst (proto_to_signature LittleEndian pb sig0) = negb (Z.testbit pb.(s4) 56).
Proof.
  intros Hwf. rewrite !proto_to_signature_spec by assumption. cbn [fst].
  rewrite !s_is_even_testbit.
  cbn [reassembled s store_u64 be_bytes le_bytes rev app nth].
  rewrite !testbit0_u8_of_Z. split.
  - apply Z.negb_odd.
  - rewrite !Z.shiftr_shiftr by lia. cbn [Z.add Pos.add Pos.succ].
    rewrite <- Z.bit0_odd, Z.shiftr_spec by lia. reflexivity.
Qed.

Lemma proto_to_signature_deciding_bit_witness :
  fst (proto_to_signature BigEndian odd_wire talz_signature) = true /\
  fst (proto_to_signature LittleEndian odd_wire talz_signature) = false.
Proof.
  apply (proto_to_signature_deciding_bit odd_wire talz_signature).
  split; reflexivity.
Defined.

(** ** All the outcomes of signing *)

Lemma BN_num_bytes_gt_32 (a : Z) : 32 < BN_num_bytes a -> 2 ^ 256 <= Z.abs a.
Proof.
  intros H. destruct (Z.le_gt_cases (2 ^ 256) (Z.abs a)) as [Hle|Hlt]; [exact Hle|].
  apply BN_num_bytes_le_32 in Hlt. lia.
Qed.

Section SigningOutcomes.

Context {txin_fields tx_fields : Type}.
Context {ssl : OpenSSL} {btc : Bitcoin txin_fields tx_fields}.

(** X5. What [sign_hash] does in every case. It returns [NULL] when the
    primitive does. Otherwise, with [s'] the raw [s] when that is even and
    [order - s] when it is odd, it stops at an assertion when [s'] is odd
    or when [r] or [s'] does not fit 32 bytes, and in all other cases
    returns the magnitudes of [r] and [s'] as 32-byte big-endian numbers,
    padded with zero bytes on the left. *)
Theorem sign_hash_outcome (k : EC_KEY) (h : sha256_double) :
  sign_hash k h =
  match ECDSA_do_sign h 32 k with
  | None => Returned None
  | Some raw =>
    let s' := if Z.odd raw.(ECDSA_SIG.s)
              then EC_GROUP_get_order (EC_KEY_get0_group k) - raw.(ECDSA_SIG.s)
              else raw.(ECDSA_SIG.s) in
    if Z.odd s' || (2 ^ 256 <=? Z.abs raw.(ECDSA_SIG.r)) || (2 ^ 256 <=? Z.abs s')
    then Aborted
    else Returned (Some {| r := be_bytes 32 (Z.abs raw.(ECDSA_SIG.r));
                           s := be_bytes 32 (Z.abs s') |})
  end.
Proof.
  unfold sign_hash. destruct (ECDSA_do_sign h 32 k) as [raw|]; [|reflexivity].
  unfold BN_is_odd, BN_sub. cbv zeta.
  set (order := EC_GROUP_get_order (EC_KEY_get0_group k)).
  set (s' := if Z.odd raw.(ECDSA_SIG.s) then order - raw.(ECDSA_SIG.s)
             else raw.(ECDSA_SIG.s)).
  destruct (Z.odd s') eqn:Hodd.
  { (* the assertion on the parity fails *)
    unfold s' in Hodd. destruct (Z.odd raw.(ECDSA_SIG.s)) eqn:E.
    - rewrite Hodd. reflexivity.
    - congruence. }
  assert (Hfirst :
    (if Z.odd raw.(ECDSA_SIG.s)
     then ASSERT negb (Z.odd (order - raw.(ECDSA_SIG.s)))
          IN Returned (order - raw.(ECDSA_SIG.s))
     else Returned raw.(ECDSA_SIG.s)) = Returned s').
  { unfold s' in *. destruct (Z.odd raw.(ECDSA_SIG.s)); [|reflexivity].
    rewrite Hodd. reflexivity. }
  rewrite Hfirst. cbn [obind orb].
  destruct (Z.leb_spec (BN_num_bytes raw.(ECDSA_SIG.r)) 32) as [Hlr|Hlr].
  2: { apply BN_num_bytes_gt_32, Z.leb_le in Hlr. rewrite Hlr. reflexivity. }
  destruct (pack_32 _ Hlr) as [Hpr Hbr].
  replace (2 ^ 256 <=? Z.abs raw.(ECDSA_SIG.r)) with false
    by (symmetry; apply Z.leb_gt; exact Hbr).
  cbn [assert obind orb].
  destruct (Z.leb_spec (BN_num_bytes s') 32) as [Hls|Hls].
  2: { apply BN_num_bytes_gt_32, Z.leb_le in Hls. rewrite Hls. reflexivity. }
  destruct (pack_32 _ Hls) as [Hps Hbs].
  replace (2 ^ 256 <=? Z.abs s') with false
    by (symmetry; apply Z.leb_gt; exact Hbs).
  cbn [assert obind talz_signature r s]. rewrite Hpr, Hps. reflexivity.
Qed.

(** X6. Whatever the primitive does, a signature that [sign_hash] returns
    is fit for the rest of the file: the encoder does not abort on it,
    the decoder accepts its record and gives it back, and
    [check_signed_hash] does not abort on it, its answer being the
    engine's on the two numbers. *)
Theorem sign_hash_output_usable (k : EC_KEY) (h : sha256_double)
    (sig : signature) :
  sign_hash k h = Returned (Some sig) ->
  forall e,
    (exists pb,
       signature_to_proto e sig = Returned pb /\
       forall sig0, wf_signature sig0 ->
                    proto_to_signature e pb sig0 = (true, sig)) /\
    (forall hash key,
       check_signed_hash hash sig key
       = Returned (engine_verdict hash (be_value sig.(r)) (be_value sig.(s)) key)).
Proof.
  intros Hsig e.
  destruct (sign_hash_only_returns_canonical k h sig Hsig) as [Hwf Heven].
  split.
  - eexists. split; [apply signature_to_proto_canonical, Heven|].
    intros sig0 Hwf0. rewrite proto_to_signature_spec by assumption.
    rewrite (reassembled_signature_to_proto e sig _ Hwf
               (signature_to_proto_canonical e sig Heven)).
    now rewrite Heven.
  - intros hash key. now apply check_signed_hash_canonical.
Qed.

End SigningOutcomes.

Lemma sign_hash_output_usable_witness :
  exists sig pb,
    sign_hash (ssl := demo_ssl) 5 [x01] = Returned (Some sig) /\
    signature_to_proto LittleEndian sig = Returned pb /\
    proto_to_signature LittleEndian pb talz_signature = (true, sig).
Proof.
  eexists. 
  destruct (sign_hash_output_usable (ssl := demo_ssl) (btc := demo_btc)
              5 [x01] _ eq_refl LittleEndian) as [(pb & Hpb & Hdec) _].
  exists pb. split; [reflexivity|]. split; [exact Hpb|].
  apply Hdec. split; reflexivity.
Defined.

(** ** The callers of the digest *)

Section Callers.

Context {txin_fields tx_fields : Type}.
Context {ssl : OpenSSL} {btc : Bitcoin txin_fields tx_fields}.

Local Abbreviation tx_input := (bitcoin_tx_input txin_fields).
Local Abbreviation tx_t := (bitcoin_tx txin_fields tx_fields).

Lemma assert_inputs_zeroed_aborts (inputs : list tx_input) :
  assert_inputs_zeroed inputs = Aborted <-> ~ Forall zeroed inputs.
Proof.
  induction inputs as [|i rest IH]; cbn [assert_inputs_zeroed].
  - split; [discriminate | intros H; destruct H; constructor].
  - rewrite Forall_cons. unfold zeroed at 1.
    destruct (Z.eqb_spec i.(script_length) 0) as [Hz|Hz]; cbn [assert obind].
    + rewrite IH. tauto.
    + split; [tauto | reflexivity].
Qed.

Lemma store_null_zeroed (n : nat) (tx : tx_t) :
  Forall zeroed tx.(input) ->
  Forall zeroed (store_input n (set_script None) tx).(input).
Proof.
  intros Hz. unfold store_input. cbn [input].
  apply Forall_alter; [exact Hz|]. intros i _ Hi. exact Hi.
Qed.

Lemma store_null_same (n : nat) (tx : tx_t) :
  Forall null_script tx.(input) ->
  store_input n (set_script None) tx = tx.
Proof.
  intros Hnull. apply store_input_same.
  intros i Hi. rewrite Forall_lookup in Hnull. specialize (Hnull _ _ Hi).
  unfold null_script in Hnull. destruct i as [l p o]. cbn in *. now subst p.
Qed.

Lemma store_out_of_range (n : nat) (f : tx_input -> tx_input) (tx : tx_t) :
  (input_count tx <= n)%nat -> store_input n f tx = tx.
Proof.
  intros Hn. apply store_input_same. intros i Hi.
  apply lookup_lt_Some in Hi. unfold input_count in Hn. lia.
Qed.

(** X7. When the digest builder stops: it aborts exactly when the input
    number is out of range or some input of the transaction has a script
    of non-zero length; in every other case it returns a digest. *)
Theorem sha256_tx_one_input_aborts_iff (tx : tx_t) (input_num : nat)
    (script : option (list u8)) (script_len : Z) :
  fst (sha256_tx_one_input tx input_num script script_len) = Aborted
  <-> (input_count tx <= input_num)%nat \/ ~ Forall zeroed tx.(input).
Proof.
  unfold sha256_tx_one_input.
  destruct (Nat.ltb_spec input_num (input_count tx)) as [Hn|Hn]; cbn [negb].
  - destruct (assert_inputs_zeroed tx.(input)) as [[]|] eqn:Hz; cbn [fst].
    + split; [discriminate|]. intros [Hge|Hnz]; [lia|].
      apply assert_inputs_zeroed_aborts in Hnz. congruence.
    + split; [|reflexivity]. intros _. right.
      now apply assert_inputs_zeroed_aborts.
  - cbn [fst]. split; [intros _; left; exact Hn | reflexivity].
Qed.

(** X8. [sign_tx_input] on a transaction whose scripts are empty: it
    signs the digest of the transaction with the subscript installed at
    the input, a signature it returns is canonical, it aborts when the
    input is out of range, and on every path it leaves a transaction
    whose scripts are empty, the one it received with the script pointer
    of the input set to [NULL]. *)
Theorem sign_tx_input_signs_installed (tx : tx_t) (in_ : nat)
    (subscript : option (list u8)) (subscript_len : Z) (privkey : EC_KEY) :
  Forall zeroed tx.(input) ->
  let res := sign_tx_input tx in_ subscript subscript_len privkey in
  ((in_ < input_count tx)%nat ->
   fst res = sign_hash privkey (digest_of (installed tx in_ subscript subscript_len))) /\
  ((input_count tx <= in_)%nat -> fst res = Aborted) /\
  (forall sig, fst res = Returned (Some sig) ->
               wf_signature sig /\ s_is_even sig = true) /\
  snd res = store_input in_ (set_script None) tx /\
  Forall zeroed (snd res).(input).
Proof.
  intros Hz res. unfold res, sign_tx_input.
  destruct (Nat.ltb_spec in_ (input_count tx)) as [Hn|Hn].
  - rewrite sha256_tx_one_input_returns by assumption. cbn [fst snd].
    split; [reflexivity|]. split; [intros Hge; lia|].
    split; [|split; [reflexivity | now apply store_null_zeroed]].
    intros sig Hsig. exact (sign_hash_only_returns_canonical _ _ _ Hsig).
  - unfold sha256_tx_one_input. apply Nat.ltb_ge in Hn. rewrite Hn.
    apply Nat.ltb_ge in Hn. cbn [negb fst snd].
    rewrite store_out_of_range by exact Hn.
    split; [intros Hlt; lia|]. split; [reflexivity|].
    split; [discriminate|]. split; [reflexivity | exact Hz].
Qed.

(** X9. All the outcomes of [check_signed_hash] on a 32-byte signature.
    It aborts exactly when the signature is not canonical, before the
    key is even looked at; on a canonical signature it returns true
    exactly when the key decodes and [ECDSA_do_verify] answers anything
    but 0 and -1, and false when the key does not decode. *)
Theorem check_signed_hash_outcomes (hash : sha256_double) (sig : signature)
    (key : pubkey.t) :
  wf_signature sig ->
  let decoded := o2i_ECPublicKey (EC_KEY_new_by_curve_name NID_secp256k1)
                   key.(pubkey.key) (pubkey_len key) in
  let numbers := {| ECDSA_SIG.r := be_value sig.(r);
                    ECDSA_SIG.s := be_value sig.(s) |} in
  (check_signed_hash hash sig key = Aborted <-> s_is_even sig = false) /\
  (check_signed_hash hash sig key = Returned true <->
   s_is_even sig = true /\
   exists eckey, decoded = Some eckey /\
                 ECDSA_do_verify hash 32 numbers eckey <> 0 /\
                 ECDSA_do_verify hash 32 numbers eckey <> -1) /\
  (s_is_even sig = true -> decoded = None ->
   check_signed_hash hash sig key = Returned false).
Proof.
  intros Hwf decoded numbers.
  destruct (s_is_even sig) eqn:Heven.
  2: { rewrite check_signed_hash_odd by assumption.
       repeat split; try discriminate; try tauto. intros [H _]. discriminate. }
  rewrite check_signed_hash_canonical by assumption.
  unfold engine_verdict. fold decoded. fold numbers.
  split; [split; discriminate|].
  destruct decoded as [eckey|].
  - cbv zeta. split; [|intros _ Hnone; discriminate Hnone].
    destruct (Z.eqb_spec (ECDSA_do_verify hash 32 numbers eckey) 0) as [E0|E0];
      destruct (Z.eqb_spec (ECDSA_do_verify hash 32 numbers eckey) (-1)) as [E1|E1];
      cbn [negb andb]; (split; [intros Htrue | intros (_ & k & Hk & H0 & H1)]);
      try discriminate Htrue; try (injection Hk as <-; contradiction).
    + split; [reflexivity|]. exists eckey. repeat split; assumption.
    + reflexivity.
  - split; [|intros _ _; reflexivity]. split; [intros Htrue; discriminate Htrue|].
    intros (_ & k & Hk & _). discriminate Hk.
Qed.

End Callers.
(** ** The joint check, case by case *)

Section TwoOfTwo.

Context {txin_fields tx_fields : Type}.
Context {ssl : OpenSSL} {btc : Bitcoin txin_fields tx_fields}.

Local Abbreviation tx_t := (bitcoin_tx txin_fields tx_fields).

Lemma check_2of2_sig_past_digest (tx : tx_t) (input_num : nat)
    (output : bitcoin_tx_output.t) (key1 key2 : pubkey.t)
    (sig1 sig2 : signature) :
  (input_num < input_count tx)%nat ->
  Forall zeroed tx.(input) ->
  is_p2sh output.(bitcoin_tx_output.script)
          output.(bitcoin_tx_output.script_length) = true ->
  check_2of2_sig tx input_num output key1 key2 sig1 sig2
  = (let hash := digest_of (installed tx input_num
                              output.(bitcoin_tx_output.script)
                              output.(bitcoin_tx_output.script_length)) in
     DO ok1 <~ check_signed_hash hash sig1 key1 IN
     if ok1 then check_signed_hash hash sig2 key2 else Returned false,
     store_input input_num (set_script None) tx).
Proof.
  intros Hn Hz Hp2sh. unfold check_2of2_sig.
  apply Nat.ltb_lt in Hn. rewrite Hn, Hp2sh. cbn [negb].
  apply Nat.ltb_lt in Hn. rewrite sha256_tx_one_input_returns by assumption.
  reflexivity.
Qed.

(** X10. [check_2of2_sig] once the digest is computed: it aborts when the
    first signature is not canonical; it returns false when the first
    signature is canonical and refused, without looking at the second
    signature at all; and when the first is accepted its result is that
    of the second verification, abort included. *)
Theorem check_2of2_sig_cases (tx : tx_t) (input_num : nat)
    (output : bitcoin_tx_output.t) (key1 key2 : pubkey.t)
    (sig1 sig2 : signature) :
  (input_num < input_count tx)%nat ->
  Forall zeroed tx.(input) ->
  is_p2sh output.(bitcoin_tx_output.script)
          output.(bitcoin_tx_output.script_length) = true ->
  wf_signature sig1 ->
  let hash := digest_of (installed tx input_num
                           output.(bitcoin_tx_output.script)
                           output.(bitcoin_tx_output.script_length)) in
  let verdict1 := engine_verdict hash (be_value sig1.(r)) (be_value sig1.(s)) key1 in
  let result := fst (check_2of2_sig tx input_num output key1 key2 sig1 sig2) in
  (s_is_even sig1 = false -> result = Aborted) /\
  (s_is_even sig1 = true -> verdict1 = false -> result = Returned false) /\
  (s_is_even sig1 = true -> verdict1 = true ->
   result = check_signed_hash hash sig2 key2).
Proof.
  intros Hn Hz Hp2sh Hwf1 hash verdict1 result. unfold result.
  rewrite check_2of2_sig_past_digest by assumption. cbn [fst]. cbv zeta.
  fold hash. split; [|split].
  - intros Hodd. rewrite check_signed_hash_odd by assumption. reflexivity.
  - intros Heven Hv. rewrite check_signed_hash_canonical by assumption.
    fold verdict1. rewrite Hv. reflexivity.
  - intros Heven Hv. rewrite check_signed_hash_canonical by assumption.
    fold verdict1. rewrite Hv. reflexivity.
Qed.

(** X11. The two signers can be given in either order: under the
    preconditions of the call, with two canonical signatures, exchanging
    the pairs (key, signature) does not change the result. *)
Theorem check_2of2_sig_symmetric (tx : tx_t) (input_num : nat)
    (output : bitcoin_tx_output.t) (key1 key2 : pubkey.t)
    (sig1 sig2 : signature) :
  (input_num < input_count tx)%nat ->
  Forall zeroed tx.(input) ->
  is_p2sh output.(bitcoin_tx_output.script)
          output.(bitcoin_tx_output.script_length) = true ->
  wf_signature sig1 -> wf_signature sig2 ->
  s_is_even sig1 = true -> s_is_even sig2 = true ->
  check_2of2_sig tx input_num output key1 key2 sig1 sig2
  = check_2of2_sig tx input_num output key2 key1 sig2 sig1.
Proof.
  intros Hn Hz Hp2sh Hwf1 Hwf2 He1 He2.
  rewrite !check_2of2_sig_past_digest by assumption. cbv zeta.
  rewrite !check_signed_hash_canonical by assumption. cbn [obind].
  f_equal.
  destruct (engine_verdict _ _ _ key1), (engine_verdict _ _ _ key2); reflexivity.
Qed.

(** X12. What [check_2of2_sig] does to the transaction, given one whose
    scripts are empty. Out of range or on an output that is not
    pay-to-script-hash it aborts and has changed nothing; otherwise it
    leaves the transaction it received with the script pointer of the
    input set to [NULL]. On every path the scripts are empty afterwards,
    and the transaction is the very same when they were null pointers. *)
Theorem check_2of2_sig_transaction (tx : tx_t) (input_num : nat)
    (output : bitcoin_tx_output.t) (key1 key2 : pubkey.t)
    (sig1 sig2 : signature) :
  Forall zeroed tx.(input) ->
  let res := check_2of2_sig tx input_num output key1 key2 sig1 sig2 in
  let p2sh := is_p2sh output.(bitcoin_tx_output.script)
                      output.(bitcoin_tx_output.script_length) in
  ((input_count tx <= input_num)%nat \/ p2sh = false -> res = (Aborted, tx)) /\
  ((input_num < input_count tx)%nat -> p2sh = true ->
   snd res = store_input input_num (set_script None) tx) /\
  Forall zeroed (snd res).(input) /\
  (Forall null_script tx.(input) -> snd res = tx).
Proof.
  intros Hz res p2sh. unfold res.
  destruct (Nat.ltb_spec input_num (input_count tx)) as [Hn|Hn].
  - destruct p2sh eqn:Hp; unfold p2sh in Hp.
    + rewrite check_2of2_sig_past_digest by assumption. cbn [snd].
      split; [intros [Hge|Hf]; [lia | discriminate Hf]|].
      split; [reflexivity|]. split; [now apply store_null_zeroed|].
      apply store_null_same.
    + unfold check_2of2_sig. apply Nat.ltb_lt in Hn. rewrite Hn, Hp.
      cbn [negb snd]. split; [reflexivity|].
      split; [intros _ Ht; discriminate Ht|]. split; [exact Hz | reflexivity].
  - unfold check_2of2_sig. apply Nat.ltb_ge in Hn. rewrite Hn.
    apply Nat.ltb_ge in Hn. cbn [negb snd]. split; [reflexivity|].
    split; [intros Hlt; lia|]. split; [exact Hz | reflexivity].
Qed.

End TwoOfTwo.

(** ** These properties at work on the small engine *)

Lemma sign_tx_input_signs_installed_witness :
  exists sig,
    fst (sign_tx_input (ssl := demo_ssl) (btc := demo_btc)
           demo_tx 0 (Some [x51]) 1 5) = Returned (Some sig) /\
    s_is_even sig = true /\
    snd (sign_tx_input (ssl := demo_ssl) (btc := demo_btc)
           demo_tx 0 (Some [x51]) 1 5) = demo_tx.
Proof.
  destruct (sign_tx_input_signs_installed (ssl := demo_ssl) (btc := demo_btc)
              demo_tx 0 (Some [x51]) 1 5)
    as (_ & _ & Hcanon & Hsnd & _).
  - repeat constructor.
  - eexists. split; [reflexivity|]. split.
    + eapply Hcanon. reflexivity.
    + rewrite Hsnd. reflexivity.
Defined.

Lemma check_signed_hash_outcomes_witness :
  check_signed_hash (ssl := demo_ssl) (btc := demo_btc)
    [x01] odd_signature demo_key = Aborted.
Proof.
  destruct (check_signed_hash_outcomes (ssl := demo_ssl) (btc := demo_btc)
              [x01] odd_signature demo_key) as ([_ Habort] & _).
  - split; reflexivity.
  - apply Habort. reflexivity.
Defined.

Lemma check_2of2_sig_cases_witness :
  fst (check_2of2_sig (ssl := demo_ssl) (btc := demo_btc)
         demo_tx 0 demo_output demo_key_refusing demo_key
         sample_signature odd_signature) = Returned false.
Proof.
  destruct (check_2of2_sig_cases (ssl := demo_ssl) (btc := demo_btc)
              demo_tx 0 demo_output demo_key_refusing demo_key
              sample_signature odd_signature) as (_ & Hrefused & _).
  - cbn. lia.
  - repeat constructor.
  - reflexivity.
  - split; reflexivity.
  - apply Hrefused; reflexivity.
Defined.

Lemma check_2of2_sig_symmetric_witness :
  check_2of2_sig (ssl := demo_ssl) (btc := demo_btc)
    demo_tx 0 demo_output demo_key_refusing demo_key
    sample_signature talz_signature
  = check_2of2_sig (ssl := demo_ssl) (btc := demo_btc)
      demo_tx 0 demo_output demo_key demo_key_refusing
      talz_signature sample_signature.
Proof.
  apply (check_2of2_sig_symmetric (ssl := demo_ssl) (btc := demo_btc)).
  - cbn. lia.
  - repeat constructor.
  - reflexivity.
  - split; reflexivity.
  - split; reflexivity.
  - reflexivity.
  - reflexivity.
Defined.

Lemma check_2of2_sig_transaction_witness :
  snd (check_2of2_sig (ssl := demo_ssl) (btc := demo_btc)
         demo_tx 0 demo_output demo_key demo_key
         sample_signature talz_signature) = demo_tx.
Proof.
  destruct (check_2of2_sig_transaction (ssl := demo_ssl) (btc := demo_btc)
              demo_tx 0 demo_output demo_key demo_key
              sample_signature talz_signature) as (_ & _ & _ & Hsame).
  - repeat constructor.
  - apply Hsame. repeat constructor.
Defined.
